(** * ResearchAgent-Scrapp: the chat front ends

    A shallow embedding of the two React chat clients of the repository
    ([frontend/src/App.jsx] and its older near-duplicate) and of the
    PubMed payload sniffer [tryParsePubMed], with the properties the
    specification states about them.

    JavaScript strings are sequences of UTF-16 code units; values are the
    values JSON can produce (plus [undefined]); exceptions are explicit
    ([completion]); the asynchronous [send] is a computation that either
    settles at once or is suspended on its single network exchange. *)

From Stdlib Require Import String Ascii DecimalString NArith Arith Bool Lia List.
Import ListNotations.

Set Implicit Arguments.
Set Warnings "-register-all".

(* ================================================================= *)
(** ** Strings *)

(** A UTF-16 code unit, and a string of them. *)
Abbreviation char := N.
Abbreviation js_string := (list N).

(** A string literal of the source (ASCII only). *)
Definition js (s : string) : js_string :=
  map N_of_ascii (list_ascii_of_string s).

Definition char_eqb (a b : char) : bool := N.eqb a b.

(** The code unit of an ASCII character. *)
Definition ch (a : ascii) : char := N_of_ascii a.

(** The double quote. *)
Definition quote : char := 34%N.

Fixpoint str_eqb (a b : js_string) : bool :=
  match a, b with
  | [], [] => true
  | x :: a', y :: b' => char_eqb x y && str_eqb a' b'
  | _, _ => false
  end.

(** WhiteSpace and LineTerminator code units: what [String.prototype.trim]
    strips and what [\s] matches. *)
Definition is_space (c : char) : bool :=
  ((9 <=? c) && (c <=? 13) || (c =? 32) || (c =? 160) || (c =? 5760)
   || (8192 <=? c) && (c <=? 8202) || (c =? 8232) || (c =? 8233)
   || (c =? 8239) || (c =? 8287) || (c =? 12288) || (c =? 65279))%N.

Fixpoint drop_space (s : js_string) : js_string :=
  match s with
  | c :: s' => if is_space c then drop_space s' else s
  | [] => []
  end.

(** [s.trim()] *)
Definition trim (s : js_string) : js_string :=
  rev (drop_space (rev (drop_space s))).

(** [s] without the prefix [p], when it starts with [p]. *)
Fixpoint strip_prefix (p s : js_string) : option js_string :=
  match p, s with
  | [], _ => Some s
  | a :: p', x :: s' => if char_eqb x a then strip_prefix p' s' else None
  | _ :: _, [] => None
  end.

(** The decimal digits of a natural number, as [Number.prototype.toString]
    prints an integer. *)
Definition decimal (n : nat) : js_string :=
  js (NilZero.string_of_uint (Nat.to_uint n)).

(* ================================================================= *)
(** ** Exceptions *)

(** What the engine itself can throw in this program.  The texts of these
    messages are implementation-defined. *)
Inductive fault :=
| BadJSON (text : js_string)           (* SyntaxError of a JSON parse *)
| NullishRead (prop : js_string)       (* property read on null/undefined *)
| NotIterable                          (* spread of a non-iterable *)
| NotAFunction (prop : js_string)      (* call of a missing method *)
| NoPrimitive.                         (* object without string conversion *)

(** An [Error] object: its [name] and [message]. *)
Record js_error := mk_error { err_name : js_string; err_message : js_string }.

Inductive completion (A : Type) :=
| Normal (a : A)
| Throw (e : js_error).
Arguments Normal {A} a.
Arguments Throw {A} e.

Definition bind {A B} (m : completion A) (f : A -> completion B) : completion B :=
  match m with
  | Normal a => f a
  | Throw e => Throw e
  end.

(** [try { m } catch (e) { h e }] *)
Definition try_catch {A} (m : completion A) (h : js_error -> completion A)
  : completion A :=
  match m with
  | Normal a => Normal a
  | Throw e => h e
  end.

Declare Scope js_scope.
Delimit Scope js_scope with js.
Notation "x <- m ;; k" := (bind m (fun x => k))
  (at level 61, m at next level, right associativity) : js_scope.
Open Scope js_scope.

(** Code that updates a state [S] and may throw; what it did to the state
    before it threw stays done. *)
Definition action (S A : Type) := S -> S * completion A.

Definition ret {S A} (a : A) : action S A := fun st => (st, Normal a).

Definition raise {S A} (e : js_error) : action S A := fun st => (st, Throw e).

Definition lift {S A} (m : completion A) : action S A := fun st => (st, m).

Definition bind_a {S A B} (m : action S A) (f : A -> action S B) : action S B :=
  fun st =>
    match m st with
    | (st', Normal a) => f a st'
    | (st', Throw e) => (st', Throw e)
    end.

(** [try { m } catch (e) { h e }] *)
Definition try_catch_a {S A} (m : action S A) (h : js_error -> action S A)
  : action S A :=
  fun st =>
    match m st with
    | (st', Normal a) => (st', Normal a)
    | (st', Throw e) => h e st'
    end.

(** [try { m } finally { f }]: [f] runs either way, and what [m] threw is
    thrown again unless [f] throws itself. *)
Definition finally {S A} (m : action S A) (f : action S unit) : action S A :=
  fun st =>
    match m st with
    | (st', r) =>
        match f st' with
        | (st'', Normal _) => (st'', r)
        | (st'', Throw e) => (st'', Throw e)
        end
    end.

Notation "x <-- m ;; k" := (bind_a m (fun x => k))
  (at level 61, m at next level, right associativity) : js_scope.
Notation "m ;;; k" := (bind_a m (fun _ => k))
  (at level 61, right associativity) : js_scope.

(** How a reader of input ends: with a result and the input left, on
    malformed input, or for lack of fuel. *)
Inductive parsed (A : Type) :=
| Parsed (a : A) (rest : js_string)
| Malformed
| OutOfFuel.
Arguments Parsed {A} a rest.
Arguments Malformed {A}.
Arguments OutOfFuel {A}.

(* ================================================================= *)
(** ** The engine *)

(** Numbers are IEEE doubles and the messages of built-in errors are the
    engine's own; both stay abstract. *)
Class Engine := {
  number : Type;
  number_of_literal : js_string -> number;   (* value of a JSON number token *)
  number_of_nat : nat -> number;             (* an array index *)
  number_truthy : number -> bool;            (* ToBoolean *)
  number_to_string : number -> js_string;    (* ToString *)
  fault_message : fault -> js_string
}.

(* ================================================================= *)
(** ** Regular expressions

    The two patterns of [tryParsePubMed] are run by a backtracking matcher
    in continuation-passing style, the way the language defines matching:
    a greedy quantifier tries one more iteration before it tries the rest
    of the pattern, a lazy one tries the rest first, and an iteration that
    consumes nothing is rejected. *)

Module Regex.

Inductive regex :=
| Eps
| Chr (c : char)                 (* a literal character *)
| Class (p : char -> bool)       (* a character class *)
| Seq (r1 r2 : regex)
| Opt (r : regex)                (* r? *)
| Star (r : regex)               (* r* *)
| LazyStar (r : regex)           (* r*? *)
| Group (i : nat) (r : regex).   (* the i-th capturing group *)

(** A literal string. *)
Fixpoint Str (p : js_string) : regex :=
  match p with
  | [] => Eps
  | a :: p' => Seq (Chr a) (Str p')
  end.

Definition captures := list (nat * js_string).
Definition outcome := option (js_string * captures).
Definition cont := js_string -> captures -> outcome.

(** The continuation [k], run only when input was consumed since [s]. *)
Definition progressed (s : js_string) (k : cont) : cont :=
  fun s' c' => if length s' <? length s then k s' c' else None.

Definition or_else (a : outcome) (b : unit -> outcome) : outcome :=
  match a with
  | Some x => Some x
  | None => b tt
  end.

Definition matcher := cont -> js_string -> captures -> outcome.

(** The iterations of a greedy star over the atom matched by [m]; [n]
    bounds their number, and the length of the input is bound enough,
    since each iteration consumes input. *)
Fixpoint star_loop (m : matcher) (k : cont) (n : nat)
  (s : js_string) (c : captures) {struct n} : outcome :=
  match n with
  | O => k s c
  | S n' =>
      or_else (m (progressed s (star_loop m k n')) s c) (fun _ => k s c)
  end.

(** The iterations of a lazy star. *)
Fixpoint lazy_loop (m : matcher) (k : cont) (n : nat)
  (s : js_string) (c : captures) {struct n} : outcome :=
  or_else (k s c)
    (fun _ => match n with
              | O => None
              | S n' => m (progressed s (lazy_loop m k n')) s c
              end).

(** [rmatch r k s c]: match [r] at the head of [s], then continue with
    [k] on what is left; [None] when every alternative fails. *)
Fixpoint rmatch (r : regex) : matcher :=
  match r with
  | Eps => fun k s c => k s c
  | Chr a => fun k s c =>
      match s with
      | x :: s' => if char_eqb x a then k s' c else None
      | [] => None
      end
  | Class p => fun k s c =>
      match s with
      | x :: s' => if p x then k s' c else None
      | [] => None
      end
  | Seq r1 r2 => fun k s c => rmatch r1 (rmatch r2 k) s c
  | Opt r1 => fun k s c =>
      or_else (rmatch r1 (progressed s k) s c) (fun _ => k s c)
  | Star r1 => fun k s c => star_loop (rmatch r1) k (length s) s c
  | LazyStar r1 => fun k s c => lazy_loop (rmatch r1) k (length s) s c
  | Group i r1 => fun k s c =>
      rmatch r1 (fun s' c' =>
                   k s' ((i, firstn (length s - length s') s) :: c')) s c
  end.

(** The result of a successful [String.prototype.match] with a pattern
    without the [g] flag: the matched text and the captured groups. *)
Record match_result := mk_match { matched : js_string; groups : captures }.

(** [m[i]] for [i >= 1]: [undefined] ([None]) when the group took no part. *)
Fixpoint group (i : nat) (c : captures) : option js_string :=
  match c with
  | [] => None
  | (j, x) :: c' => if Nat.eqb i j then Some x else group i c'
  end.

(** [s.match(r)]: the leftmost position where [r] matches. *)
Fixpoint search (r : regex) (s : js_string) : option match_result :=
  match rmatch r (fun s' c => Some (s', c)) s [] with
  | Some (rest, c) => Some (mk_match (firstn (length s - length rest) s) c)
  | None =>
      match s with
      | [] => None
      | _ :: s' => search r s'
      end
  end.

Definition any_char (c : char) : bool := is_space c || negb (is_space c).

End Regex.

(** [/```(?:json)?\s*([\s\S]*?)```/] *)
Definition code_block_re : Regex.regex :=
  Regex.Seq (Regex.Str (js "```"))
    (Regex.Seq (Regex.Opt (Regex.Str (js "json")))
       (Regex.Seq (Regex.Star (Regex.Class is_space))
          (Regex.Seq (Regex.Group 1 (Regex.LazyStar (Regex.Class Regex.any_char)))
             (Regex.Str (js "```"))))).

(** [/\{[\s\S]*\}/] *)
Definition json_re : Regex.regex :=
  Regex.Seq (Regex.Chr 123%N)
    (Regex.Seq (Regex.Star (Regex.Class Regex.any_char)) (Regex.Chr 125%N)).

(* ================================================================= *)
(** ** Values *)

Section Program.

Context {E : Engine}.

(** The values the program handles: [undefined] and what JSON produces.
    An object lists its own properties in creation order, each key once. *)
Inductive value :=
| VUndefined
| VNull
| VBool (b : bool)
| VNum (n : number)
| VStr (s : js_string)
| VArr (items : list value)
| VObj (props : list (js_string * value)).

Definition type_error (f : fault) : js_error :=
  mk_error (js "TypeError") (fault_message f).

Definition syntax_error (f : fault) : js_error :=
  mk_error (js "SyntaxError") (fault_message f).

(** ToBoolean *)
Definition truthy (v : value) : bool :=
  match v with
  | VUndefined | VNull => false
  | VBool b => b
  | VNum n => number_truthy n
  | VStr s => match s with [] => false | _ => true end
  | VArr _ | VObj _ => true
  end.

Definition nullish (v : value) : bool :=
  match v with
  | VUndefined | VNull => true
  | _ => false
  end.

(** [Array.isArray(v)] *)
Definition isArray (v : value) : bool :=
  match v with
  | VArr _ => true
  | _ => false
  end.

(** [v === 'lit'] *)
Definition is_literal (v : value) (lit : js_string) : bool :=
  match v with
  | VStr s => str_eqb s lit
  | _ => false
  end.

(** [a || b] *)
Definition or_value (a b : value) : value := if truthy a then a else b.

Fixpoint own (ps : list (js_string * value)) (k : js_string) : option value :=
  match ps with
  | [] => None
  | (k', v) :: ps' => if str_eqb k' k then Some v else own ps' k
  end.

(** [v.k] on a value that is neither [null] nor [undefined].  Every name
    the program reads ([results], [message], [error], [messages], [role],
    [pmid], [url], [title], [authors], [journal_citation], [snippet],
    [total_results], [query]) is absent from the built-in prototypes, so
    only an own property of an object can give a value. *)
Definition member (v : value) (k : js_string) : value :=
  match v with
  | VObj ps => match own ps k with Some x => x | None => VUndefined end
  | _ => VUndefined
  end.

(** [v.k] *)
Definition get (v : value) (k : js_string) : completion value :=
  if nullish v then Throw (type_error (NullishRead k)) else Normal (member v k).

(** [v?.k] *)
Definition opt_get (v : value) (k : js_string) : value :=
  if nullish v then VUndefined else member v k.

(** ToString.  An array joins its elements with commas, [null] and
    [undefined] elements as empty strings.  A plain object prints as
    [[object Object]] through [Object.prototype.toString], unless an own
    [toString] property (never callable in parsed JSON) shadows it: then
    no method yields a primitive and the conversion throws. *)
Fixpoint to_string (v : value) : completion js_string :=
  match v with
  | VUndefined => Normal (js "undefined")
  | VNull => Normal (js "null")
  | VBool true => Normal (js "true")
  | VBool false => Normal (js "false")
  | VNum n => Normal (number_to_string n)
  | VStr s => Normal s
  | VArr items =>
      (fix join (l : list value) : completion js_string :=
         match l with
         | [] => Normal []
         | x :: l' =>
             a <- (if nullish x then Normal [] else to_string x) ;;
             match l' with
             | [] => Normal a
             | _ :: _ => b <- join l' ;; Normal (a ++ js "," ++ b)
             end
         end) items
  | VObj ps =>
      match own ps (js "toString") with
      | Some _ => Throw (type_error NoPrimitive)
      | None => Normal (js "[object Object]")
      end
  end.

(** [new Error(v)] *)
Definition new_Error (v : value) : completion js_error :=
  match v with
  | VUndefined => Normal (mk_error (js "Error") [])
  | _ => m <- to_string v ;; Normal (mk_error (js "Error") m)
  end.

(** [Error.prototype.toString] *)
Definition error_toString (e : js_error) : js_string :=
  match err_name e, err_message e with
  | [], m => m
  | n, [] => n
  | n, m => n ++ js ": " ++ m
  end.

(** [String(e?.message || e)] for a caught error [e] *)
Definition error_text (e : js_error) : js_string :=
  match err_message e with
  | [] => error_toString e
  | m => m
  end.

(** The strings a string yields when iterated: its code points. *)
Fixpoint code_points (s : js_string) : list value :=
  match s with
  | [] => []
  | a :: s' =>
      match s' with
      | b :: s'' =>
          if ((55296 <=? a) && (a <=? 56319) && (56320 <=? b) && (b <=? 57343))%N
          then VStr [a; b] :: code_points s''
          else VStr [a] :: code_points s'
      | [] => [VStr [a]]
      end
  end.

(** The elements [...v] spreads. *)
Definition spread (v : value) : completion (list value) :=
  match v with
  | VArr items => Normal items
  | VStr s => Normal (code_points s)
  | _ => Throw (type_error NotIterable)
  end.

(** [v.slice(0, -1)] *)
Definition slice_0_m1 (v : value) : completion value :=
  match v with
  | VArr items => Normal (VArr (removelast items))
  | VStr s => Normal (VStr (removelast s))
  | VUndefined | VNull => Throw (type_error (NullishRead (js "slice")))
  | _ => Throw (type_error (NotAFunction (js "slice")))
  end.

(** [l.filter(f)] with a callback that may throw *)
Fixpoint filter_c (f : value -> completion bool) (l : list value)
  : completion (list value) :=
  match l with
  | [] => Normal []
  | x :: l' =>
      b <- f x ;;
      r <- filter_c f l' ;;
      Normal (if b then x :: r else r)
  end.

(** [l.map(f)] with a callback that may throw; [f] gets the index too *)
Fixpoint map_c {A} (f : value -> nat -> completion A) (i : nat) (l : list value)
  : completion (list A) :=
  match l with
  | [] => Normal []
  | x :: l' =>
      y <- f x i ;;
      r <- map_c f (S i) l' ;;
      Normal (y :: r)
  end.

(* ================================================================= *)
(** ** JSON.parse

    The JSON grammar of the language standard, read by recursive descent.
    Nesting is bounded by [fuel]; [JSON_parse] gives enough of it
    (lemma [parse_value_fuel]). *)

Definition is_json_space (c : char) : bool :=
  char_eqb c 9%N || char_eqb c 10%N || char_eqb c 13%N || char_eqb c 32%N.

Fixpoint skip_ws (s : js_string) : js_string :=
  match s with
  | c :: s' => if is_json_space c then skip_ws s' else s
  | [] => []
  end.

Definition is_digit (c : char) : bool := ((48 <=? c) && (c <=? 57))%N.

Definition hex_value (c : char) : option N :=
  if is_digit c then Some (c - 48)%N
  else if ((97 <=? c) && (c <=? 102))%N then Some (c - 87)%N
  else if ((65 <=? c) && (c <=? 70))%N then Some (c - 55)%N
  else None.

Definition hex4 (a b c d : char) : option char :=
  match hex_value a, hex_value b, hex_value c, hex_value d with
  | Some x, Some y, Some z, Some w => Some (((x * 16 + y) * 16 + z) * 16 + w)%N
  | _, _, _, _ => None
  end.

(** The characters of a string token after its opening quote, unescaped,
    and the input after its closing quote. *)
Fixpoint lex_string (s : js_string) : option (js_string * js_string) :=
  match s with
  | [] => None
  | c :: r =>
      if char_eqb c quote then Some ([], r)
      else if char_eqb c (ch "\") then
        match r with
        | [] => None
        | e :: r1 =>
            let simple (x : char) :=
              match lex_string r1 with
              | Some (t, rest) => Some (x :: t, rest)
              | None => None
              end in
            if char_eqb e quote then simple quote
            else if char_eqb e (ch "\") then simple (ch "\")
            else if char_eqb e (ch "/") then simple (ch "/")
            else if char_eqb e (ch "b") then simple 8%N
            else if char_eqb e (ch "f") then simple 12%N
            else if char_eqb e (ch "n") then simple 10%N
            else if char_eqb e (ch "r") then simple 13%N
            else if char_eqb e (ch "t") then simple 9%N
            else if char_eqb e (ch "u") then
              match r1 with
              | h1 :: h2 :: h3 :: h4 :: r2 =>
                  match hex4 h1 h2 h3 h4, lex_string r2 with
                  | Some x, Some (t, rest) => Some (x :: t, rest)
                  | _, _ => None
                  end
              | _ => None
              end
            else None
        end
      else if (c <? 32)%N then None
      else
        match lex_string r with
        | Some (t, rest) => Some (c :: t, rest)
        | None => None
        end
  end.

(** The longest prefix of digits, and what follows. *)
Fixpoint span_digits (s : js_string) : js_string * js_string :=
  match s with
  | c :: s' =>
      if is_digit c then let (d, r) := span_digits s' in (c :: d, r)
      else ([], s)
  | [] => ([], [])
  end.

(** At least one digit. *)
Definition digits1 (s : js_string) : option (js_string * js_string) :=
  match span_digits s with
  | ([], _) => None
  | (d, r) => Some (d, r)
  end.

(** A number token: an optional minus sign; a zero or a run of digits
    that starts with a non-zero digit; optionally a dot and digits;
    optionally an exponent, [e] or [E], a sign and digits. *)
Definition lex_number (s : js_string) : option (js_string * js_string) :=
  let (sign, s0) :=
    match s with
    | c :: r => if char_eqb c (ch "-") then ([c], r) else ([], s)
    | [] => ([], s)
    end in
  let int_part :=
    match s0 with
    | c :: r => if char_eqb c (ch "0") then Some ([c], r) else digits1 s0
    | [] => None
    end in
  match int_part with
  | None => None
  | Some (i, s1) =>
      let frac_part :=
        match s1 with
        | c :: r =>
            if char_eqb c (ch ".") then
              match digits1 r with
              | Some (d, r') => Some (c :: d, r')
              | None => None
              end
            else Some ([], s1)
        | [] => Some ([], s1)
        end in
      match frac_part with
      | None => None
      | Some (f, s2) =>
          let exp_part :=
            match s2 with
            | c :: r =>
                if char_eqb c (ch "e") || char_eqb c (ch "E") then
                  let (sg, r0) :=
                    match r with
                    | g :: r' =>
                        if char_eqb g (ch "+") || char_eqb g (ch "-")
                        then ([g], r') else ([], r)
                    | [] => ([], r)
                    end in
                  match digits1 r0 with
                  | Some (d, r') => Some (c :: sg ++ d, r')
                  | None => None
                  end
                else Some ([], s2)
            | [] => Some ([], s2)
            end in
          match exp_part with
          | None => None
          | Some (e, s3) => Some (sign ++ i ++ f ++ e, s3)
          end
      end
  end.

(** CreateDataProperty: a repeated key keeps its place and takes the later
    value. *)
Fixpoint set_prop (ps : list (js_string * value)) (k : js_string) (v : value)
  : list (js_string * value) :=
  match ps with
  | [] => [(k, v)]
  | (k', v') :: ps' =>
      if str_eqb k' k then (k', v) :: ps' else (k', v') :: set_prop ps' k v
  end.

Fixpoint parse_value (fuel : nat) (s : js_string) : parsed value :=
  match fuel with
  | O => OutOfFuel
  | S fuel' =>
      match skip_ws s with
      | [] => Malformed
      | c :: r =>
          if char_eqb c (ch "{") then
            match skip_ws r with
            | [] => Malformed
            | c' :: r' =>
                if char_eqb c' (ch "}") then Parsed (VObj []) r'
                else parse_members fuel' [] (c' :: r')
            end
          else if char_eqb c (ch "[") then
            match skip_ws r with
            | [] => Malformed
            | c' :: r' =>
                if char_eqb c' (ch "]") then Parsed (VArr []) r'
                else parse_elements fuel' [] (c' :: r')
            end
          else if char_eqb c quote then
            match lex_string r with
            | Some (t, rest) => Parsed (VStr t) rest
            | None => Malformed
            end
          else if char_eqb c (ch "-") || is_digit c then
            match lex_number (c :: r) with
            | Some (t, rest) => Parsed (VNum (number_of_literal t)) rest
            | None => Malformed
            end
          else
            match strip_prefix (js "true") (c :: r) with
            | Some rest => Parsed (VBool true) rest
            | None =>
            match strip_prefix (js "false") (c :: r) with
            | Some rest => Parsed (VBool false) rest
            | None =>
            match strip_prefix (js "null") (c :: r) with
            | Some rest => Parsed VNull rest
            | None => Malformed
            end end end
      end
  end

(** The elements of an array from the start of an element on; [acc] holds
    the elements read so far, last first. *)
with parse_elements (fuel : nat) (acc : list value) (s : js_string)
  : parsed value :=
  match fuel with
  | O => OutOfFuel
  | S fuel' =>
      match parse_value fuel' s with
      | Parsed v r =>
          match skip_ws r with
          | [] => Malformed
          | c :: r' =>
              if char_eqb c (ch ",") then parse_elements fuel' (v :: acc) r'
              else if char_eqb c (ch "]") then Parsed (VArr (rev (v :: acc))) r'
              else Malformed
          end
      | Malformed => Malformed
      | OutOfFuel => OutOfFuel
      end
  end

(** The members of an object from the start of a member on; [acc] holds
    the properties created so far. *)
with parse_members (fuel : nat) (acc : list (js_string * value)) (s : js_string)
  : parsed value :=
  match fuel with
  | O => OutOfFuel
  | S fuel' =>
      match skip_ws s with
      | [] => Malformed
      | q :: r =>
          if char_eqb q quote then
            match lex_string r with
            | None => Malformed
            | Some (key, r1) =>
                match skip_ws r1 with
                | [] => Malformed
                | colon :: r2 =>
                    if char_eqb colon (ch ":") then
                      match parse_value fuel' r2 with
                      | Parsed v r3 =>
                          match skip_ws r3 with
                          | [] => Malformed
                          | c :: r4 =>
                              if char_eqb c (ch ",") then
                                parse_members fuel' (set_prop acc key v) r4
                              else if char_eqb c (ch "}") then
                                Parsed (VObj (set_prop acc key v)) r4
                              else Malformed
                          end
                      | Malformed => Malformed
                      | OutOfFuel => OutOfFuel
                      end
                    else Malformed
                end
            end
          else Malformed
      end
  end.

(** [JSON.parse(text)]: one value, with nothing but white space around. *)
Definition JSON_parse (text : js_string) : completion value :=
  match parse_value (2 * length text + 2) text with
  | Parsed v rest =>
      match skip_ws rest with
      | [] => Normal v
      | _ :: _ => Throw (syntax_error (BadJSON text))
      end
  | Malformed | OutOfFuel => Throw (syntax_error (BadJSON text))
  end.

(* ================================================================= *)
(** ** The PubMed payload sniffer ([frontend/src/App.jsx]) *)

Definition tryParsePubMed (content : value) : completion value :=
  match content with
  | VStr text =>
      let str := trim text in
      let codeBlock := Regex.search code_block_re str in
      str <- match codeBlock with
             | Some m =>
                 match Regex.group 1 (Regex.groups m) with
                 | Some g => Normal (trim g)
                 | None => Throw (type_error (NullishRead (js "trim")))
                 end
             | None => Normal str
             end ;;
      let jsonMatch := Regex.search json_re str in
      match jsonMatch with
      | None => Normal VNull
      | Some m =>
          try_catch
            (data <- JSON_parse (Regex.matched m) ;;
             if truthy (opt_get data (js "results")) then
               results <- get data (js "results") ;;
               if isArray results then Normal data else Normal VNull
             else Normal VNull)
            (fun _ => Normal VNull)
      end
  | _ => Normal VNull
  end.

(** What a component returns: an element tree.  [Expr v] is a child
    written in braces. *)
Inductive node :=
| Text (s : js_string)
| Expr (v : value)
| Elem (tag : js_string) (attrs : list (js_string * value)) (children : list node).

(** [v && element] *)
Definition and_node (v : value) (element : node) : node :=
  if truthy v then element else Expr v.

Definition className (c : string) : js_string * value :=
  (js "className", VStr (js c)).

Definition new_tab : list (js_string * value) :=
  [(js "target", VStr (js "_blank")); (js "rel", VStr (js "noopener noreferrer"))].

(** The card of one result.  The file imports no [React] object, so its
    JSX is compiled for the automatic runtime, [jsx(type, props, key)]:
    the properties and the children of an element are evaluated before
    its key, and the runtime keeps the key as the string it converts to
    (an object that owns a [toString] has none, and the conversion
    throws). *)
Definition card (r : value) (i : nat) : completion node :=
  url <- get r (js "url") ;;
  title <- get r (js "title") ;;
  authors <- get r (js "authors") ;;
  citation <- get r (js "journal_citation") ;;
  snippet <- get r (js "snippet") ;;
  url' <- get r (js "url") ;;
  pmid <- get r (js "pmid") ;;
  key <- to_string (or_value pmid (VNum (number_of_nat i))) ;;
  Normal
    (Elem (js "article")
       [(js "key", VStr key); className "pubmed-card"]
       [Elem (js "h3") [className "pubmed-card-title"]
          [Elem (js "a") ((js "href", url) :: new_tab)
             [Expr (or_value title (VStr (js "Untitled")))]];
        and_node authors
          (Elem (js "p") [className "pubmed-card-meta"] [Expr authors]);
        and_node citation
          (Elem (js "p") [className "pubmed-card-citation"] [Expr citation]);
        and_node snippet
          (Elem (js "p") [className "pubmed-card-snippet"] [Expr snippet]);
        Elem (js "a") ((js "href", url') :: new_tab ++ [className "pubmed-card-link"])
          [Text (js "View on PubMed " ++ [8594%N])]]).

(** [results.map(...)] *)
Definition cards (results : value) : completion (list node) :=
  match results with
  | VArr items => map_c card 0 items
  | VUndefined | VNull => Throw (type_error (NullishRead (js "map")))
  | _ => Throw (type_error (NotAFunction (js "map")))
  end.

(** The view of a structured result set: the count, the query when there
    is one, and the cards. *)
Definition result_set (total query : value) (cs : list node) : node :=
  Elem (js "div") [className "pubmed-results"]
    [Elem (js "div") [className "pubmed-meta"]
       [Elem (js "span") []
          [Elem (js "strong") [] [Expr total]; Text (js " results")];
        and_node query
          (Elem (js "span") [] [Text (js "Query: "); Expr query])];
     Elem (js "div") [className "pubmed-cards"] cs].

Definition MessageContent (content role : value) : completion node :=
  pubmed <- tryParsePubMed content ;;
  if truthy pubmed then
    total <- get pubmed (js "total_results") ;;
    query <- get pubmed (js "query") ;;
    results <- get pubmed (js "results") ;;
    cs <- cards results ;;
    Normal (result_set total query cs)
  else Normal (Elem (js "div") [className "message-text"] [Expr content]).

(* ================================================================= *)
(** ** The conversation controller: what both clients share *)

(** The view state of [App]. *)
Record state := mk_state {
  messages : value;
  input : js_string;
  loading : bool;
  error : js_string
}.

(** A call of [fetch]: [body] is the value that [JSON.stringify] writes. *)
Record request := mk_request {
  url : js_string;
  method : js_string;
  headers : list (js_string * js_string);
  body : value
}.

Record response := mk_response {
  status : nat;
  body_text : js_string
}.

(** [resp.ok] *)
Definition ok (resp : response) : bool :=
  (200 <=? status resp) && (status resp <=? 299).

(** How the network exchange ends: [fetch] rejects, or resolves. *)
Inductive fetch_outcome :=
| Rejected (e : js_error)
| Responded (resp : response).

Definition setMessages (v : value) : action state unit :=
  fun st => (mk_state v (input st) (loading st) (error st), Normal tt).

(** [setMessages(f)] with an updater [f] of the current list *)
Definition updateMessages (f : value -> completion value) : action state unit :=
  fun st =>
    match f (messages st) with
    | Normal v => (mk_state v (input st) (loading st) (error st), Normal tt)
    | Throw e => (st, Throw e)
    end.

Definition setInput (s : js_string) : action state unit :=
  fun st => (mk_state (messages st) s (loading st) (error st), Normal tt).

Definition setLoading (b : bool) : action state unit :=
  fun st => (mk_state (messages st) (input st) b (error st), Normal tt).

Definition setError (s : js_string) : action state unit :=
  fun st => (mk_state (messages st) (input st) (loading st) s, Normal tt).

(** An [async] function with one network exchange, the call of [fetch]
    and the reading of the body by [resp.json()]: it settles at once, or
    it has called [fetch] and resumes with the outcome, on the view state
    of that moment. *)
Inductive async :=
| Settled (st : state) (r : completion unit)
| Awaiting (st : state) (req : request)
    (resume : fetch_outcome -> action state unit).

(** [{ role: 'user', content: text }] *)
Definition user_message (text : js_string) : value :=
  VObj [(js "role", VStr (js "user")); (js "content", VStr text)].

(** [(m) => m.role === 'user' || m.role === 'assistant'] *)
Definition sendable (m : value) : completion bool :=
  r <- get m (js "role") ;;
  if is_literal r (js "user") then Normal true
  else r' <- get m (js "role") ;; Normal (is_literal r' (js "assistant")).

(** The argument of [fetch]. *)
Definition chat_request (nextMessages : list value) : completion request :=
  kept <- filter_c sendable nextMessages ;;
  Normal (mk_request (js "/api/chat") (js "POST")
            [(js "Content-Type", js "application/json")]
            (VObj [(js "messages", VArr kept)])).

(** The [try] block from the answer of [fetch] on: the same text in both
    clients. *)
Definition reconcile (nextMessages : value) (o : fetch_outcome)
  : action state unit :=
  match o with
  | Rejected e => raise e
  | Responded resp =>
      data <-- lift (JSON_parse (body_text resp)) ;;
      if negb (ok resp) then
        e <-- lift (new_Error
                      (or_value (or_value (opt_get data (js "message"))
                                          (opt_get data (js "error")))
                                (VStr (js "HTTP " ++ decimal (status resp))))) ;;
        raise e
      else
        m <-- lift (get data (js "messages")) ;;
        setMessages (or_value m nextMessages)
  end.

(** The run of an [async] function against a network that answers [net],
    nothing else touching the view state meanwhile: the final state, how
    the promise settles, and the requests issued. *)
Definition settle (net : request -> fetch_outcome) (a : async)
  : state * completion unit * list request :=
  match a with
  | Settled st r => (st, r, [])
  | Awaiting st req resume => (resume (net req) st, [req])
  end.

End Program.

(* ================================================================= *)
(** ** [send] of [frontend/src/App.jsx] *)

Module App.
Section Controller.

Context {E : Engine}.

(** The [catch] block *)
Definition handler (e : js_error) : action state unit :=
  setError (error_text e) ;;;
  updateMessages slice_0_m1.

(** The [finally] block *)
Definition cleanup : action state unit := setLoading false.

(** [(typeof userText === 'string' ? userText : input.trim()).trim()] *)
Definition effective_text (st : state) (userText : value) : js_string :=
  trim (match userText with
        | VStr s => s
        | _ => trim (input st)
        end).

Definition send (st : state) (userText : value) : async :=
  let text := effective_text st userText in
  if (match text with [] => true | _ :: _ => false end) || loading st
  then Settled st (Normal tt)
  else
    match (setError [] ;;;
           setLoading true ;;;
           items <-- lift (spread (messages st)) ;;
           let nextMessages := items ++ [user_message text] in
           setMessages (VArr nextMessages) ;;;
           setInput [] ;;;
           ret nextMessages) st with
    | (st1, Throw e) => Settled st1 (Throw e)
    | (st1, Normal nextMessages) =>
        match chat_request nextMessages with
        | Throw e =>
            let (st2, r) := finally (handler e) cleanup st1 in
            Settled st2 r
        | Normal req =>
            Awaiting st1 req
              (fun o => finally (try_catch_a (reconcile (VArr nextMessages) o)
                                             handler)
                                cleanup)
        end
    end.

End Controller.
End App.

(* ================================================================= *)
(** ** [send] of the older client (the second [App] component) *)

Module Part000.
Section Controller.

Context {E : Engine}.

(** The [catch] block *)
Definition handler (e : js_error) : action state unit :=
  setError (error_text e).

(** The [finally] block *)
Definition cleanup : action state unit := setLoading false.

(** [input.trim()] *)
Definition effective_text (st : state) : js_string := trim (input st).

Definition send (st : state) : async :=
  let text := effective_text st in
  if (match text with [] => true | _ :: _ => false end) || loading st
  then Settled st (Normal tt)
  else
    match (setError [] ;;;
           setLoading true ;;;
           items <-- lift (spread (messages st)) ;;
           let nextMessages := items ++ [user_message text] in
           setMessages (VArr nextMessages) ;;;
           setInput [] ;;;
           ret nextMessages) st with
    | (st1, Throw e) => Settled st1 (Throw e)
    | (st1, Normal nextMessages) =>
        match chat_request nextMessages with
        | Throw e =>
            let (st2, r) := finally (handler e) cleanup st1 in
            Settled st2 r
        | Normal req =>
            Awaiting st1 req
              (fun o => finally (try_catch_a (reconcile (VArr nextMessages) o)
                                             handler)
                                cleanup)
        end
    end.

End Controller.
End Part000.

(* ================================================================= *)
(** ** The decision procedure of the specification

    The parsing steps as the specification words them, on plain list
    functions, to compare [tryParsePubMed] with. *)

(** [s] cut at the first occurrence of [p]: what is before, what is after. *)
Fixpoint split_at (p s : js_string) : option (js_string * js_string) :=
  match strip_prefix p s with
  | Some rest => Some ([], rest)
  | None =>
      match s with
      | [] => None
      | x :: s' =>
          match split_at p s' with
          | Some (before, rest) => Some (x :: before, rest)
          | None => None
          end
      end
  end.

Definition fence : js_string := js "```".

(** The interior of the first fenced block: what lies between the first
    fence and the next one. *)
Definition fenced_interior (s : js_string) : option js_string :=
  match split_at fence s with
  | None => None
  | Some (_, rest) =>
      match split_at fence rest with
      | None => None
      | Some (interior, _) => Some interior
      end
  end.

(** [s] from the first [c] on. *)
Fixpoint from_first (c : char) (s : js_string) : js_string :=
  match s with
  | [] => []
  | x :: s' => if char_eqb x c then s else from_first c s'
  end.

(** [s] up to the last [c]. *)
Definition upto_last (c : char) (s : js_string) : js_string :=
  rev (from_first c (rev s)).

(** The substring from the first opening brace to the last closing brace. *)
Definition brace_span (s : js_string) : option js_string :=
  match upto_last 125%N (from_first 123%N s) with
  | [] => None
  | t => Some t
  end.

(** The text that is searched for braces: the trimmed text, or the
    interior of its first fenced block when it has one. *)
Definition scanned (text : js_string) : js_string :=
  match fenced_interior (trim text) with
  | Some interior => interior
  | None => trim text
  end.

Section Specification.

Context {E : Engine}.

(** The parsed value when it has a [results] field that is an array. *)
Definition accept (data : value) : value :=
  match member data (js "results") with
  | VArr _ => data
  | _ => VNull
  end.

(** The decision procedure in the words of the specification: search the
    scanned text for the substring between the braces; without one, or
    when it does not parse, the answer is [null]; else the parsed value is
    accepted or not. *)
Definition tryParsePubMed_spec (text : js_string) : value :=
  match brace_span (scanned text) with
  | None => VNull
  | Some candidate =>
      match JSON_parse candidate with
      | Throw _ => VNull
      | Normal data => accept data
      end
  end.

End Specification.

(* ================================================================= *)
(** ** A sample engine

    Numbers kept as they are written, and messages in the style of V8:
    an engine to run the program on concrete inputs. *)

Fixpoint mantissa_nonzero (s : js_string) : bool :=
  match s with
  | [] => false
  | c :: r =>
      if char_eqb c (ch "e") || char_eqb c (ch "E") then false
      else if ((49 <=? c) && (c <=? 57))%N then true
      else mantissa_nonzero r
  end.

Definition sample_message (f : fault) : js_string :=
  match f with
  | BadJSON _ => js "Unexpected token in JSON"
  | NullishRead p => js "Cannot read properties of null (reading '" ++ p ++ js "')"
  | NotIterable => js "object is not iterable"
  | NotAFunction p => p ++ js " is not a function"
  | NoPrimitive => js "Cannot convert object to primitive value"
  end.

Definition sample_engine : Engine := {|
  number := js_string;
  number_of_literal := fun s => s;
  number_of_nat := decimal;
  number_truthy := mantissa_nonzero;
  number_to_string := fun s => s;
  fault_message := sample_message
|}.

(* ================================================================= *)
(** ** What the two patterns compute

    Plain list functions that the proofs show the matcher to agree with. *)

(** What the greedy star of a character class does: it takes characters
    of the class as long as it can, and gives them back one by one until
    the rest of the pattern matches. *)
Fixpoint greedy (p : char -> bool) (k : Regex.cont) (s : js_string)
  (c : Regex.captures) : Regex.outcome :=
  match s with
  | x :: s' =>
      if p x then Regex.or_else (greedy p k s' c) (fun _ => k s c) else k s c
  | [] => k s c
  end.

(** What the lazy star of the class of all characters does: it stops at
    the first position where the rest of the pattern matches. *)
Fixpoint lazy (k : Regex.cont) (s : js_string) (c : Regex.captures)
  : Regex.outcome :=
  Regex.or_else (k s c)
    (fun _ => match s with
              | _ :: s' => lazy k s' c
              | [] => None
              end).

(** The input after the last closing brace of [s]. *)
Fixpoint after_last_close (s : js_string) : option js_string :=
  match s with
  | [] => None
  | x :: s' =>
      match after_last_close s' with
      | Some r => Some r
      | None => if char_eqb x 125%N then Some s' else None
      end
  end.

(** [s] without a leading [json] tag. *)
Definition strip_tag (s : js_string) : js_string :=
  match strip_prefix (js "json") s with
  | Some r => r
  | None => s
  end.

(** The text the group of [code_block_re] captures in [s]. *)
Definition captured (s : js_string) : option js_string :=
  match split_at fence s with
  | None => None
  | Some (_, rest) =>
      match split_at fence (drop_space (strip_tag rest)) with
      | None => None
      | Some (g, _) => Some g
      end
  end.

(** The group of [code_block_re] run to the closing fence. *)
Definition to_fence (s : js_string) (c : Regex.captures) : Regex.outcome :=
  match split_at fence s with
  | Some (b, a) => Some (a, (1, b) :: c)
  | None => None
  end.

(** The continuation [search] ends a match with. *)
Definition final : Regex.cont := fun s' c' => Some (s', c').

(** A string without back quote and without brace. *)
Definition plain (s : js_string) : Prop :=
  Forall (fun x => x <> 96%N /\ x <> 123%N /\ x <> 125%N) s.

(* ================================================================= *)
(** ** Notions the statements use *)

Section Statements.

Context {E : Engine}.

(** An entry that goes to the server: its role is [user] or [assistant]. *)
Definition has_chat_role (m : value) : bool :=
  is_literal (member m (js "role")) (js "user")
  || is_literal (member m (js "role")) (js "assistant").

(** The view state holds the conversation [l]: a list the view could
    render, none of its entries [null] or [undefined]. *)
Definition conversation (st : state) (l : list value) : Prop :=
  messages st = VArr l /\ Forall (fun m => nullish m = false) l.

(** The view state once the call has settled, and the requests it made. *)
Definition final_state (net : request -> fetch_outcome) (a : async) : state :=
  fst (fst (settle net a)).

Definition requests (net : request -> fetch_outcome) (a : async)
  : list request :=
  snd (settle net a).

(** The error a failure response makes [send] throw, when its body is the
    JSON value [data]: the first truthy one of [data?.message],
    [data?.error] and the generic text. *)
Definition failure_reason (data : value) (resp : response) : value :=
  or_value (or_value (opt_get data (js "message")) (opt_get data (js "error")))
           (VStr (js "HTTP " ++ decimal (status resp))).

(** The state in which both clients wait for the answer to the message
    [text] sent after the conversation [l], and the request they made. *)
Definition waiting (l : list value) (text : js_string) : state :=
  mk_state (VArr (l ++ [user_message text])) [] true [].

Definition outbound (l : list value) (text : js_string) : request :=
  mk_request (js "/api/chat") (js "POST")
    [(js "Content-Type", js "application/json")]
    (VObj [(js "messages", VArr (filter has_chat_role (l ++ [user_message text])))]).

End Statements.

(** A string between double quotes, as in a JSON text. *)
Definition quoted (s : string) : js_string := quote :: js s ++ [quote].

(** The inputs of the specification's examples. *)
Definition fenced_empty_results : js_string :=
  js "```json" ++ [10%N] ++ js "{" ++ quoted "results" ++ js ":[]}"
  ++ [10%N] ++ js "```".

Definition two_results : js_string :=
  js "{" ++ quoted "total_results" ++ js ":2," ++ quoted "results" ++ js ":[{"
  ++ quoted "title" ++ js ":" ++ quoted "A" ++ js ","
  ++ quoted "url" ++ js ":" ++ quoted "http://x" ++ js "},{"
  ++ quoted "title" ++ js ":" ++ quoted "B" ++ js ","
  ++ quoted "url" ++ js ":" ++ quoted "http://y" ++ js "}]}".

Section Views.

Context {E : Engine}.

(** The text of the title link of a card. *)
Definition title_text (c : node) : option value :=
  match c with
  | Elem _ _ (Elem _ _ [Elem _ _ [Expr v]] :: _) => Some v
  | _ => None
  end.

(** An entry a card can be made of: it is neither [null] nor
    [undefined], and its [pmid] converts to a string. *)
Definition has_card (r : value) : bool :=
  negb (nullish r) &&
  match to_string (member r (js "pmid")) with
  | Normal _ => true
  | Throw _ => false
  end.

End Views.

(* ================================================================= *)
(** ** Concrete runs

    States, responses and networks to run the two clients on, under the
    sample engine. *)

(** The message the older client starts with. *)
Definition greeting : @value sample_engine :=
  VObj [(js "role", VStr (js "assistant"));
        (js "content",
         VStr (js "Hi! Ask me anything. If you ask for PubMed results, I will return JSON."))].

(** An entry with another role, as a server may put in its list. *)
Definition system_note : @value sample_engine :=
  VObj [(js "role", VStr (js "system")); (js "content", VStr (js "search finished"))].

(** A question typed after the greeting. *)
Definition typing_state : @state sample_engine :=
  mk_state (VArr [greeting]) (js " aging and memory ") false [].

(** A conversation with a system entry, after an earlier failure. *)
Definition noted_state : @state sample_engine :=
  mk_state (VArr [greeting; system_note]) (js "diabetes") false (js "HTTP 500").

(** Nothing but blanks typed. *)
Definition blank_state : @state sample_engine :=
  mk_state (VArr [greeting]) (js "   ") false [].

(** A request in flight. *)
Definition busy_state : @state sample_engine :=
  mk_state (VArr [greeting]) (js "more") true [].

Definition boom_500 : response :=
  mk_response 500 (js "{" ++ quoted "error" ++ js ":" ++ quoted "boom" ++ js "}").

Definition html_502 : response :=
  mk_response 502 (js "<html>Bad Gateway</html>").

Definition null_200 : response := mk_response 200 (js "null").

Definition text_messages_200 : response :=
  mk_response 200 (js "{" ++ quoted "messages" ++ js ":" ++ quoted "hi" ++ js "}").

Definition empty_message_500 : response :=
  mk_response 500
    (js "{" ++ quoted "message" ++ js ":" ++ [quote; quote] ++ js ","
     ++ quoted "error" ++ js ":" ++ quoted "boom" ++ js "}").

Definition served_200 : response :=
  mk_response 200
    (js "{" ++ quoted "messages" ++ js ":[{" ++ quoted "role" ++ js ":"
     ++ quoted "assistant" ++ js "," ++ quoted "content" ++ js ":"
     ++ quoted "No results." ++ js "}]}").

(** The network that answers every request with [resp]. *)
Definition answers (resp : response) : @request sample_engine -> fetch_outcome :=
  fun _ => Responded resp.


(** The payload of the specification's example with two entries. *)
Definition entry_a : @value sample_engine :=
  VObj [(js "title", VStr (js "A")); (js "url", VStr (js "http://x"))].

Definition entry_b : @value sample_engine :=
  VObj [(js "title", VStr (js "B")); (js "url", VStr (js "http://y"))].

Definition two_payload : @value sample_engine :=
  VObj [(js "total_results", VNum (number_of_literal (js "2")));
        (js "results", VArr [entry_a; entry_b])].




(* ================================================================= *)
(** ** The rest of the two components *)

(** What [onKeyDown] reads of a keyboard event. *)
Record key_event := mk_key { key : js_string; shiftKey : bool }.

Section Components.

Context {E : Engine}.

(** [input.trim().length > 0 && !loading], the same text in both clients *)
Definition canSend (st : state) : bool :=
  (0 <? length (trim (input st))) && negb (loading st).

(** [messages.length === 0 && !loading].  A list and a string have their
    length; an object has the [length] it owns, a number that is [=== 0]
    exactly when it prints as [0]; nothing else has one. *)
Definition showWelcome (st : state) : completion bool :=
  match messages st with
  | VArr items => Normal ((length items =? 0) && negb (loading st))
  | VStr s => Normal ((length s =? 0) && negb (loading st))
  | VUndefined | VNull => Throw (type_error (NullishRead (js "length")))
  | VObj ps =>
      match own ps (js "length") with
      | Some (VNum n) =>
          Normal (str_eqb (number_to_string n) (js "0") && negb (loading st))
      | _ => Normal false
      end
  | VBool _ | VNum _ => Normal false
  end.

(** What a key press did: whether the default action was prevented, and
    the call of [send] it made. *)
Definition key_effect : Type := bool * option async.

(** [e.key === 'Enter' && !e.shiftKey] *)
Definition submits (e : key_event) : bool :=
  str_eqb (key e) (js "Enter") && negb (shiftKey e).

(** A style object of the older client. *)
Definition style (props : list (js_string * value)) : js_string * value :=
  (js "style", VObj props).

End Components.

Module AppUI.
Section View.

Context {E : Engine}.

Definition SUGGESTIONS : list js_string :=
  [js "Find PubMed articles on Alzheimer's and aging";
   js "Search for studies on diabetes treatment 2020-2024";
   js "Get research on machine learning in healthcare";
   js "Papers about COVID-19 vaccine efficacy"].

(** The view state [useState] starts with. *)
Definition initial : state := mk_state (VArr []) [] false [].

Definition onKeyDown (st : state) (e : key_event) : key_effect :=
  if submits e then (true, Some (App.send st VUndefined)) else (false, None).

(** [onClick={() => send(s)}] of a suggestion chip *)
Definition chip_click (st : state) (s : js_string) : async :=
  App.send st (VStr s).

(** [onClick={() => send()}] of the send button *)
Definition button_click (st : state) : async := App.send st VUndefined.

(** One message of the list; the [MessageContent] element is shown as
    what the component returns, and the key as the string the runtime
    keeps. *)
Definition row (m : value) (idx : nat) : completion node :=
  role <- get m (js "role") ;;
  cls <- to_string role ;;
  role' <- get m (js "role") ;;
  content <- get m (js "content") ;;
  role'' <- get m (js "role") ;;
  inner <- MessageContent content role'' ;;
  Normal
    (Elem (js "div")
       [(js "key", VStr (number_to_string (number_of_nat idx)));
        (js "className", VStr (js "message " ++ cls))]
       [Elem (js "div") [className "message-avatar"]
          [Expr (VStr (if is_literal role' (js "assistant")
                       then js "AI" else js "You"))];
        Elem (js "div") [className "message-body"]
          [Elem (js "div") [className "message-content"] [inner]]]).

(** [messages.map(...)] *)
Definition rows (messages : value) : completion (list node) :=
  match messages with
  | VArr items => map_c row 0 items
  | VUndefined | VNull => Throw (type_error (NullishRead (js "map")))
  | _ => Throw (type_error (NotAFunction (js "map")))
  end.

End View.
End AppUI.

Module Part000UI.
Section View.

Context {E : Engine}.

(** The view state [useState] starts with. *)
Definition initial : state :=
  mk_state
    (VArr [VObj [(js "role", VStr (js "assistant"));
                 (js "content",
                  VStr (js "Hi! Ask me anything. If you ask for PubMed results, I will return JSON."))]])
    [] false [].

Definition onKeyDown (st : state) (e : key_event) : key_effect :=
  if submits e then (true, Some (Part000.send st)) else (false, None).

(** One message of the list *)
Definition row (m : value) (idx : nat) : completion node :=
  role <- get m (js "role") ;;
  content <- get m (js "content") ;;
  Normal
    (Elem (js "div")
       [(js "key", VStr (number_to_string (number_of_nat idx)));
        style [(js "marginBottom", VNum (number_of_nat 12))]]
       [Elem (js "div")
          [style [(js "fontSize", VNum (number_of_nat 12));
                  (js "opacity", VNum (number_of_literal (js "0.8")));
                  (js "marginBottom", VNum (number_of_nat 4))]]
          [Expr role];
        Elem (js "pre")
          [style [(js "margin", VNum (number_of_nat 0));
                  (js "whiteSpace", VStr (js "pre-wrap"));
                  (js "wordBreak", VStr (js "break-word"))]]
          [Expr content]]).

(** [messages.map(...)] *)
Definition rows (messages : value) : completion (list node) :=
  match messages with
  | VArr items => map_c row 0 items
  | VUndefined | VNull => Throw (type_error (NullishRead (js "map")))
  | _ => Throw (type_error (NotAFunction (js "map")))
  end.

End View.
End Part000UI.

Section MoreNotions.

Context {E : Engine}.

(** How the promise of the call settled. *)
Definition settlement (net : request -> fetch_outcome) (a : async)
  : completion unit :=
  snd (fst (settle net a)).

(** The requests a key press made. *)
Definition key_requests (net : request -> fetch_outcome) (k : key_effect)
  : list request :=
  match snd k with
  | Some a => requests net a
  | None => []
  end.

(** The view state after a key press. *)
Definition key_state (net : request -> fetch_outcome) (st : state)
  (k : key_effect) : state :=
  match snd k with
  | Some a => final_state net a
  | None => st
  end.

(** [onChange]: the user types [s] into the input field. *)
Definition typed (s : js_string) (st : state) : state :=
  fst (setInput s st).

(** A string of white space. *)
Definition blank (s : js_string) : Prop := Forall (fun c => is_space c = true) s.

(** An answer of the network that leaves a list the view can render:
    when it is a success response with a JSON body other than [null]
    whose [messages] is truthy, that is a list without [null]. *)
Definition well_served (o : fetch_outcome) : Prop :=
  match o with
  | Rejected _ => True
  | Responded resp =>
      ok resp = true ->
      forall data,
        JSON_parse (body_text resp) = Normal data ->
        nullish data = false ->
        truthy (member data (js "messages")) = true ->
        exists served,
          member data (js "messages") = VArr served /\
          Forall (fun m => nullish m = false) served
  end.

End MoreNotions.

(** More states, responses and networks for the runs. *)

(** The network is down: every [fetch] rejects. *)
Definition offline : @request sample_engine -> fetch_outcome :=
  fun _ => Rejected (mk_error (js "TypeError") (js "Failed to fetch")).

(** Enter without Shift. *)
Definition enter_key : key_event := mk_key (js "Enter") false.

(** A list with a [null] entry, and the response that served it. *)
Definition holed_state : @state sample_engine :=
  mk_state (VArr [greeting; VNull]) (js "diabetes") false [].

Definition holed_200 : response :=
  mk_response 200 (js "{" ++ quoted "messages" ++ js ":[null]}").

(** Two messages without payload. *)
Definition small_talk : list (@value sample_engine) :=
  [greeting; user_message (js "aging and memory")].

(* ================================================================= *)
(** * Proofs *)

Import Regex.

(* ================================================================= *)
(** ** Strings *)

Lemma char_eqb_eq (a b : char) : char_eqb a b = true <-> a = b.
Proof. apply N.eqb_eq. Qed.

Lemma strip_prefix_sound (p s r : js_string) :
  strip_prefix p s = Some r -> s = p ++ r.
Proof.
  revert s; induction p as [|a p IH]; intros s H; simpl in *.
  - now inversion H.
  - destruct s as [|x s]; [discriminate|].
    destruct (char_eqb x a) eqn:Hx; [|discriminate].
    apply char_eqb_eq in Hx; subst x.
    now rewrite (IH _ H).
Qed.

Lemma strip_prefix_length (p s r : js_string) :
  strip_prefix p s = Some r -> length s = length p + length r.
Proof.
  intros H. apply strip_prefix_sound in H. subst s. apply length_app.
Qed.

(** Cutting at the first occurrence gives back the string. *)
Lemma split_at_sound (p s a b : js_string) :
  split_at p s = Some (a, b) -> s = a ++ p ++ b.
Proof.
  revert a; induction s as [|x s IH]; intros a H; simpl in H.
  - destruct (strip_prefix p []) eqn:Hp; [|discriminate].
    inversion H; subst. now apply strip_prefix_sound in Hp.
  - destruct (strip_prefix p (x :: s)) eqn:Hp.
    + inversion H; subst. now apply strip_prefix_sound in Hp.
    + destruct (split_at p s) as [[a' b']|] eqn:Hs; [|discriminate].
      inversion H; subst. simpl. f_equal. now apply IH.
Qed.

(** An occurrence further on is an occurrence. *)
Lemma split_at_cons_none (p : js_string) (x : char) (s : js_string) :
  split_at p (x :: s) = None -> split_at p s = None.
Proof.
  simpl. destruct (strip_prefix p (x :: s)); [discriminate|].
  destruct (split_at p s) as [[? ?]|]; [discriminate|reflexivity].
Qed.

Lemma split_at_app_none (p a s : js_string) :
  split_at p (a ++ s) = None -> split_at p s = None.
Proof.
  induction a as [|x a IH]; simpl app; intros H; [exact H|].
  apply IH. now apply split_at_cons_none in H.
Qed.


Lemma rmatch_Str (p : js_string) (k : cont) (s : js_string) (c : captures) :
  rmatch (Str p) k s c =
  match strip_prefix p s with
  | Some r => k r c
  | None => None
  end.
Proof.
  revert s; induction p as [|a p IH]; intros s; simpl; [reflexivity|].
  destruct s as [|x s]; [reflexivity|].
  destruct (char_eqb x a); [apply IH|reflexivity].
Qed.

Lemma progressed_tail (x : char) (s : js_string) (k : cont) (c : captures) :
  progressed (x :: s) k s c = k s c.
Proof.
  unfold progressed. simpl length.
  now rewrite (proj2 (Nat.ltb_lt _ _) (Nat.lt_succ_diag_r _)).
Qed.

Lemma star_loop_class (p : char -> bool) (k : cont) (n : nat)
  (s : js_string) (c : captures) :
  length s <= n ->
  star_loop (rmatch (Class p)) k n s c = greedy p k s c.
Proof.
  revert s; induction n as [|n IH]; intros s Hn.
  - destruct s; [reflexivity|simpl in Hn; lia].
  - destruct s as [|x s]; simpl; [reflexivity|].
    destruct (p x); [|reflexivity].
    rewrite progressed_tail, IH by (simpl in Hn; lia). reflexivity.
Qed.

Lemma any_char_true (x : char) : any_char x = true.
Proof. unfold any_char. now destruct (is_space x). Qed.

Lemma lazy_loop_any (k : cont) (n : nat) (s : js_string) (c : captures) :
  length s <= n ->
  lazy_loop (rmatch (Class any_char)) k n s c = lazy k s c.
Proof.
  revert s; induction n as [|n IH]; intros s Hn.
  - destruct s; [|simpl in Hn; lia]. simpl. now destruct (k [] c).
  - destruct s as [|x s]; simpl.
    + now destruct (k [] c).
    + destruct (k (x :: s) c); [reflexivity|]. simpl.
      rewrite any_char_true, progressed_tail. apply IH. simpl in Hn; lia.
Qed.

(** *** The scan for braces *)

Lemma greedy_close (t : js_string) (c : captures) :
  greedy any_char (rmatch (Chr 125%N) (fun s' c' => Some (s', c'))) t c =
  match after_last_close t with
  | Some r => Some (r, c)
  | None => None
  end.
Proof.
  remember (rmatch (Chr 125%N) (fun s' c' => Some (s', c'))) as K eqn:HK.
  induction t as [|x t IH]; simpl.
  - now subst K.
  - rewrite any_char_true, IH.
    destruct (after_last_close t); simpl; [reflexivity|].
    subst K. simpl. now destruct (char_eqb x 125%N).
Qed.

Lemma rmatch_json_re (s : js_string) :
  rmatch json_re (fun s' c' => Some (s', c')) s [] =
  match s with
  | x :: t =>
      if char_eqb x 123%N then
        match after_last_close t with
        | Some r => Some (r, [])
        | None => None
        end
      else None
  | [] => None
  end.
Proof.
  unfold json_re. simpl rmatch. destruct s as [|x t]; [reflexivity|].
  destruct (char_eqb x 123%N); [|reflexivity].
  change (star_loop (rmatch (Class any_char))
            (rmatch (Chr 125%N) (fun s' c' => Some (s', c'))) (length t) t [] = 
          match after_last_close t with Some r => Some (r, []) | None => None end).
  rewrite star_loop_class by lia. apply greedy_close.
Qed.


Lemma from_first_snoc (c x : char) (a : js_string) :
  from_first c (a ++ [x]) =
  match from_first c a with
  | [] => if char_eqb x c then [x] else []
  | u => u ++ [x]
  end.
Proof.
  induction a as [|y a IH]; simpl.
  - now destruct (char_eqb x c).
  - destruct (char_eqb y c); [reflexivity|exact IH].
Qed.

Lemma upto_last_cons (c x : char) (t : js_string) :
  upto_last c (x :: t) =
  match upto_last c t with
  | [] => if char_eqb x c then [x] else []
  | u => x :: u
  end.
Proof.
  unfold upto_last. simpl rev. rewrite from_first_snoc.
  destruct (from_first c (rev t)) as [|y u] eqn:Hf; simpl.
  - now destruct (char_eqb x c).
  - rewrite rev_app_distr. simpl.
    destruct (rev u ++ [y]) eqn:Hr; [|reflexivity].
    now destruct (rev u).
Qed.

Lemma after_last_close_length (t r : js_string) :
  after_last_close t = Some r -> length r < length t.
Proof.
  revert r; induction t as [|x t IH]; intros r H; simpl in *; [discriminate|].
  destruct (after_last_close t) as [r'|].
  - inversion H; subst. specialize (IH _ eq_refl). lia.
  - destruct (char_eqb x 125%N); inversion H; subst. lia.
Qed.

Lemma upto_last_close (t : js_string) :
  match after_last_close t with
  | Some r => upto_last 125%N t = firstn (length t - length r) t
              /\ upto_last 125%N t <> []
  | None => upto_last 125%N t = []
  end.
Proof.
  induction t as [|x t IH]; [reflexivity|].
  rewrite upto_last_cons. simpl after_last_close.
  destruct (after_last_close t) as [r|] eqn:Hr.
  - destruct IH as [IH1 IH2]. apply after_last_close_length in Hr.
    destruct (upto_last 125%N t) as [|y u] eqn:Hu; [congruence|].
    split; [|discriminate].
    replace (length (x :: t) - length r) with (S (length t - length r))
      by (simpl length; lia).
    simpl. now rewrite IH1.
  - rewrite IH. destruct (char_eqb x 125%N); [|reflexivity].
    split; [|discriminate].
    replace (length (x :: t) - length t) with 1 by (simpl length; lia).
    reflexivity.
Qed.

Lemma search_eq (r : regex) (s : js_string) :
  search r s =
  match rmatch r (fun s' c => Some (s', c)) s [] with
  | Some (rest, c) => Some (mk_match (firstn (length s - length rest) s) c)
  | None =>
      match s with
      | [] => None
      | _ :: s' => search r s'
      end
  end.
Proof. destruct s; reflexivity. Qed.

Lemma search_json_re_none (t : js_string) :
  after_last_close t = None -> search json_re t = None.
Proof.
  induction t as [|x t IH]; intros H; rewrite search_eq, rmatch_json_re.
  - reflexivity.
  - simpl in H. destruct (after_last_close t); [discriminate|].
    destruct (char_eqb x 123%N); now apply IH.
Qed.

(** [json_re] matches from the first opening brace to the last closing
    brace. *)
Lemma search_json_re (s : js_string) :
  option_map matched (search json_re s) = brace_span s.
Proof.
  unfold brace_span.
  induction s as [|x t IH]; rewrite search_eq, rmatch_json_re.
  - reflexivity.
  - simpl from_first. destruct (char_eqb x 123%N) eqn:Hx.
    + apply char_eqb_eq in Hx; subst x.
      rewrite upto_last_cons. pose proof (upto_last_close t) as Hc.
      destruct (after_last_close t) as [r|] eqn:Hr.
      * destruct Hc as [Hc1 Hc2]. apply after_last_close_length in Hr.
        cbn [option_map matched].
        destruct (upto_last 125%N t) as [|y u] eqn:Hu; [congruence|].
        cbn [length]. rewrite Nat.sub_succ_l by lia.
        cbn [firstn]. now rewrite Hc1.
      * rewrite Hc. simpl. now rewrite search_json_re_none.
    + exact IH.
Qed.


(** *** Characters that are no part of a fence or of a brace pair *)


Lemma is_space_plain (x : char) :
  is_space x = true -> x <> 96%N /\ x <> 123%N /\ x <> 125%N.
Proof. intros H; repeat split; intros ->; discriminate H. Qed.

Lemma drop_space_decomp (s : js_string) :
  exists w, s = w ++ drop_space s /\ plain w.
Proof.
  induction s as [|x s [w [Hw Hp]]]; simpl.
  - exists []. split; [reflexivity|constructor].
  - destruct (is_space x) eqn:Hx.
    + exists (x :: w). split; [simpl; now f_equal|].
      constructor; [now apply is_space_plain|exact Hp].
    + exists []. split; [reflexivity|constructor].
Qed.

Lemma plain_app (a b : js_string) : plain a -> plain b -> plain (a ++ b).
Proof. intros Ha Hb. apply Forall_app. now split. Qed.

Lemma plain_rev (a : js_string) : plain a -> plain (rev a).
Proof. apply Forall_rev. Qed.

Lemma strip_tag_decomp (s : js_string) :
  exists t, s = t ++ strip_tag s /\ plain t.
Proof.
  unfold strip_tag. destruct (strip_prefix (js "json") s) as [r|] eqn:H.
  - exists (js "json"). split; [now apply strip_prefix_sound|].
    repeat constructor; discriminate.
  - exists []. split; [reflexivity|constructor].
Qed.

(** What the pattern skips after the opening fence holds no back quote
    and no brace. *)
Lemma skipped_decomp (r : js_string) :
  exists pre, r = pre ++ drop_space (strip_tag r) /\ plain pre.
Proof.
  destruct (strip_tag_decomp r) as [t [Ht Hpt]].
  destruct (drop_space_decomp (strip_tag r)) as [w [Hw Hpw]].
  exists (t ++ w). split; [|now apply plain_app].
  rewrite <- app_assoc, <- Hw. exact Ht.
Qed.

Lemma trim_decomp (s : js_string) :
  exists w1 w2, s = w1 ++ trim s ++ w2 /\ plain w1 /\ plain w2.
Proof.
  destruct (drop_space_decomp s) as [w1 [H1 Hp1]].
  destruct (drop_space_decomp (rev (drop_space s))) as [w [H2 Hp2]].
  exists w1, (rev w). repeat split; [|exact Hp1|now apply plain_rev].
  unfold trim. rewrite <- rev_app_distr, <- H2, rev_involutive. exact H1.
Qed.

(** *** Fences and plain prefixes *)

Lemma split_at_fence_cons (x : char) (s : js_string) :
  x <> 96%N ->
  split_at fence (x :: s) =
  match split_at fence s with
  | Some (b, a) => Some (x :: b, a)
  | None => None
  end.
Proof.
  intros Hx. cbn [split_at].
  replace (strip_prefix fence (x :: s)) with (@None js_string); [reflexivity|].
  simpl. destruct (char_eqb x 96%N) eqn:He; [|reflexivity].
  apply char_eqb_eq in He. contradiction.
Qed.

Lemma split_at_fence_plain (pre s : js_string) :
  plain pre ->
  split_at fence (pre ++ s) =
  match split_at fence s with
  | Some (b, a) => Some (pre ++ b, a)
  | None => None
  end.
Proof.
  induction 1 as [|x pre [Hx _] _ IH]; simpl app.
  - now destruct (split_at fence s) as [[? ?]|].
  - rewrite split_at_fence_cons, IH by exact Hx.
    now destruct (split_at fence s) as [[? ?]|].
Qed.

Lemma split_at_fence_skipped (r : js_string) :
  split_at fence (drop_space (strip_tag r)) = None <-> split_at fence r = None.
Proof.
  destruct (skipped_decomp r) as [pre [Hr Hp]].
  rewrite Hr at 2. rewrite split_at_fence_plain by exact Hp.
  destruct (split_at fence (drop_space (strip_tag r))) as [[? ?]|];
    split; intros; congruence.
Qed.


(** *** The scan for a fenced block *)



Lemma firstn_prefix (pre s : js_string) :
  firstn (length (pre ++ s) - length s) (pre ++ s) = pre.
Proof.
  rewrite length_app, Nat.add_sub, firstn_app, Nat.sub_diag, firstn_all.
  simpl. apply app_nil_r.
Qed.

Lemma lazy_to_fence (s0 pre s : js_string) (c : captures) :
  s0 = pre ++ s ->
  lazy (fun s' c' =>
          rmatch (Str fence) final s'
            ((1, firstn (length s0 - length s') s0) :: c')) s c =
  match split_at fence s with
  | Some (b, a) => Some (a, (1, pre ++ b) :: c)
  | None => None
  end.
Proof.
  revert pre; induction s as [|x s IH]; intros pre Hs0.
  - subst s0. reflexivity.
  - cbn [lazy split_at]. rewrite rmatch_Str.
    destruct (strip_prefix fence (x :: s)) as [r|] eqn:Hp.
    + subst s0. rewrite firstn_prefix, app_nil_r. reflexivity.
    + cbn [or_else]. rewrite (IH (pre ++ [x])).
      * destruct (split_at fence s) as [[b a]|]; [|reflexivity].
        now rewrite <- app_assoc.
      * now rewrite <- app_assoc.
Qed.

Lemma rmatch_group (s : js_string) (c : captures) :
  rmatch (Seq (Group 1 (LazyStar (Class any_char))) (Str fence)) final s c =
  to_fence s c.
Proof.
  cbn [rmatch]. rewrite lazy_loop_any by lia.
  rewrite (@lazy_to_fence s [] s c eq_refl). reflexivity.
Qed.

Lemma greedy_ext (p : char -> bool) (k1 k2 : cont) (s : js_string) (c : captures) :
  (forall s' c', k1 s' c' = k2 s' c') -> greedy p k1 s c = greedy p k2 s c.
Proof.
  intros H. induction s as [|x s IH]; simpl; [apply H|].
  destruct (p x); [|apply H]. now rewrite IH, H.
Qed.

Lemma greedy_to_fence (s : js_string) (c : captures) :
  greedy is_space to_fence s c = to_fence (drop_space s) c.
Proof.
  induction s as [|x s IH]; [reflexivity|].
  cbn [greedy drop_space]. destruct (is_space x) eqn:Hx; [|reflexivity].
  rewrite IH. destruct (to_fence (drop_space s) c) eqn:Hd; [reflexivity|].
  cbn [or_else]. unfold to_fence in *.
  destruct (drop_space_decomp s) as [w [Hw Hp]].
  rewrite split_at_fence_cons by (now apply is_space_plain).
  rewrite Hw, split_at_fence_plain by exact Hp.
  now destruct (split_at fence (drop_space s)) as [[? ?]|].
Qed.

Lemma to_fence_tag (r : js_string) (c : captures) :
  to_fence (drop_space r) c = None ->
  to_fence (drop_space (js "json" ++ r)) c = None.
Proof.
  unfold to_fence. intros H.
  change (drop_space (js "json" ++ r)) with (js "json" ++ r).
  destruct (drop_space_decomp r) as [w [Hw Hp]].
  rewrite Hw, app_assoc, split_at_fence_plain.
  - now destruct (split_at fence (drop_space r)) as [[? ?]|].
  - apply plain_app; [repeat constructor; discriminate|exact Hp].
Qed.

(** The pattern at the head of the input: a fence, then what [captured]
    describes. *)
Lemma rmatch_code_block_re (s : js_string) :
  rmatch code_block_re final s [] =
  match strip_prefix fence s with
  | Some r => to_fence (drop_space (strip_tag r)) []
  | None => None
  end.
Proof.
  unfold code_block_re.
  change (rmatch (Seq (Str (js "```")) ?r) final s [])
    with (rmatch (Str fence) (rmatch r final) s []).
  rewrite rmatch_Str. destruct (strip_prefix fence s) as [r|]; [|reflexivity].
  change (rmatch (Seq (Opt (Str (js "json"))) ?r2) final r [])
    with (or_else (rmatch (Str (js "json")) (progressed r (rmatch r2 final)) r [])
                  (fun _ => rmatch r2 final r [])).
  assert (Hrest : forall t c,
    rmatch (Seq (Star (Class is_space))
              (Seq (Group 1 (LazyStar (Class any_char))) (Str (js "```"))))
           final t c = to_fence (drop_space t) c).
  { intros t c.
    change (star_loop (rmatch (Class is_space))
              (rmatch (Seq (Group 1 (LazyStar (Class any_char))) (Str fence)) final)
              (length t) t c = to_fence (drop_space t) c).
    rewrite star_loop_class by lia.
    rewrite <- greedy_to_fence. apply greedy_ext. apply rmatch_group. }
  rewrite rmatch_Str. unfold strip_tag.
  destruct (strip_prefix (js "json") r) as [r'|] eqn:Hj.
  - unfold progressed. pose proof (strip_prefix_length _ _ Hj) as Hl.
    simpl length in Hl.
    rewrite (proj2 (Nat.ltb_lt (length r') (length r))) by lia.
    rewrite !Hrest.
    destruct (to_fence (drop_space r') []) eqn:Hd; [reflexivity|].
    cbn [or_else]. apply strip_prefix_sound in Hj. subst r.
    now apply to_fence_tag.
  - cbn [or_else]. apply Hrest.
Qed.


Lemma captured_cons_none (x : char) (s : js_string) :
  captured (x :: s) = None -> captured s = None.
Proof.
  unfold captured. cbn [split_at].
  destruct (split_at fence s) as [[p r]|] eqn:Hs; [|reflexivity].
  destruct (split_at fence (drop_space (strip_tag r))) as [[g a]|] eqn:Hr;
    [|reflexivity].
  assert (Hne : split_at fence r <> None).
  { intros Hn. apply split_at_fence_skipped in Hn. congruence. }
  destruct (strip_prefix fence (x :: s)) as [r1|] eqn:Hp.
  - intros H. exfalso. apply Hne.
    assert (Hn1 : split_at fence r1 = None).
    { apply split_at_fence_skipped.
      now destruct (split_at fence (drop_space (strip_tag r1))) as [[? ?]|]. }
    apply strip_prefix_sound in Hp. apply split_at_sound in Hs.
    rewrite Hs in Hp. unfold fence in Hp. simpl in Hp.
    destruct p as [|a1 [|a2 p]]; simpl in Hp; inversion Hp; subst; clear Hp.
    + now apply split_at_cons_none in Hn1.
    + now apply (@split_at_app_none _ [96%N; 96%N]) in Hn1.
    + apply (@split_at_app_none _ (p ++ js "```")).
      now rewrite <- app_assoc.
  - rewrite Hr. discriminate.
Qed.

(** The group of [code_block_re] captures what [captured] describes. *)
Lemma search_code_block_re (s : js_string) :
  option_map (fun m => group 1 (groups m)) (search code_block_re s) =
  option_map Some (captured s).
Proof.
  induction s as [|x s IH]; rewrite search_eq; fold final;
    rewrite rmatch_code_block_re.
  - reflexivity.
  - destruct (strip_prefix fence (x :: s)) as [r1|] eqn:Hp.
    + assert (Hc : captured (x :: s) =
                   match split_at fence (drop_space (strip_tag r1)) with
                   | Some (g, _) => Some g
                   | None => None
                   end).
      { unfold captured. cbn [split_at]. now rewrite Hp. }
      unfold to_fence.
      destruct (split_at fence (drop_space (strip_tag r1))) as [[g a]|] eqn:Hr.
      * rewrite Hc. reflexivity.
      * rewrite IH, Hc. now rewrite (captured_cons_none x s Hc).
    + rewrite IH. unfold captured. cbn [split_at]. rewrite Hp.
      now destruct (split_at fence s) as [[? ?]|].
Qed.

(** What is captured is the interior of the first fenced block, less a
    plain prefix: the tag and the white space after the opening fence. *)
Lemma captured_interior (s : js_string) :
  match captured s with
  | Some g => exists pre, fenced_interior s = Some (pre ++ g) /\ plain pre
  | None => fenced_interior s = None
  end.
Proof.
  unfold captured, fenced_interior.
  destruct (split_at fence s) as [[p r]|]; [|reflexivity].
  destruct (skipped_decomp r) as [pre [Hr Hp]].
  assert (Heq : split_at fence r =
                match split_at fence (drop_space (strip_tag r)) with
                | Some (b, a) => Some (pre ++ b, a)
                | None => None
                end).
  { rewrite Hr at 1. now apply split_at_fence_plain. }
  rewrite Heq.
  destruct (split_at fence (drop_space (strip_tag r))) as [[g a]|];
    [|reflexivity].
  exists pre. now split.
Qed.

(** *** Braces and plain surroundings *)

Lemma from_first_plain (c : char) (a s : js_string) :
  Forall (fun x => x <> c) a -> from_first c (a ++ s) = from_first c s.
Proof.
  induction 1 as [|x a Hx _ IH]; simpl; [reflexivity|].
  destruct (char_eqb x c) eqn:He; [|exact IH].
  apply char_eqb_eq in He. contradiction.
Qed.

Lemma from_first_app (c : char) (s b : js_string) :
  from_first c (s ++ b) =
  match from_first c s with
  | [] => from_first c b
  | u => u ++ b
  end.
Proof.
  induction s as [|x s IH]; simpl.
  - now destruct (from_first c b).
  - destruct (char_eqb x c); [reflexivity|exact IH].
Qed.

Lemma from_first_none (c : char) (b : js_string) :
  Forall (fun x => x <> c) b -> from_first c b = [].
Proof.
  intros H. rewrite <- (app_nil_r b). now rewrite from_first_plain.
Qed.

Lemma upto_last_plain (c : char) (s b : js_string) :
  Forall (fun x => x <> c) b -> upto_last c (s ++ b) = upto_last c s.
Proof.
  intros H. unfold upto_last. rewrite rev_app_distr, from_first_plain.
  - reflexivity.
  - now apply Forall_rev.
Qed.

Lemma plain_no (c : char) (a : js_string) :
  c = 123%N \/ c = 125%N -> plain a -> Forall (fun x => x <> c) a.
Proof.
  intros Hc Ha. eapply Forall_impl; [|exact Ha].
  intros x [_ [H1 H2]]. destruct Hc; now subst c.
Qed.

Lemma brace_span_plain (a s b : js_string) :
  plain a -> plain b -> brace_span (a ++ s ++ b) = brace_span s.
Proof.
  intros Ha Hb. unfold brace_span.
  rewrite from_first_plain by (apply plain_no; auto).
  rewrite from_first_app.
  destruct (from_first 123%N s) as [|y u] eqn:Hf.
  - rewrite from_first_none by (apply plain_no; auto). reflexivity.
  - rewrite upto_last_plain by (apply plain_no; auto). reflexivity.
Qed.

Lemma brace_span_trim (s : js_string) : brace_span (trim s) = brace_span s.
Proof.
  destruct (trim_decomp s) as [w1 [w2 [Hs [H1 H2]]]].
  rewrite Hs at 2. symmetry. now apply brace_span_plain.
Qed.

Lemma brace_span_prefix (pre s : js_string) :
  plain pre -> brace_span (pre ++ s) = brace_span s.
Proof.
  intros H. rewrite <- (app_nil_r s) at 1.
  apply brace_span_plain; [exact H|constructor].
Qed.

Section Sniffer.

Context {E : Engine}.


Lemma results_check (data : value) :
  (if truthy (opt_get data (js "results")) then
     results <- get data (js "results") ;;
     if isArray results then Normal data else Normal VNull
   else Normal VNull) = Normal (accept data).
Proof.
  unfold accept, opt_get, get.
  destruct (nullish data) eqn:Hn.
  - destruct data; try discriminate; reflexivity.
  - simpl. destruct (member data (js "results")) as [| |b|n|s|l|ps] eqn:Hm;
      simpl; try reflexivity.
    + now destruct b.
    + now destruct (number_truthy n).
    + now destruct s.
Qed.

(** From the scan for braces on, the code and the specification agree. *)
Lemma sniff_tail (str : js_string) :
  match Regex.search json_re str with
  | None => Normal VNull
  | Some m =>
      try_catch
        (data <- JSON_parse (Regex.matched m) ;;
         if truthy (opt_get data (js "results")) then
           results <- get data (js "results") ;;
           if isArray results then Normal data else Normal VNull
         else Normal VNull)
        (fun _ => Normal VNull)
  end =
  Normal match brace_span str with
         | None => VNull
         | Some candidate =>
             match JSON_parse candidate with
             | Throw _ => VNull
             | Normal data => accept data
             end
         end.
Proof.
  rewrite <- search_json_re.
  destruct (Regex.search json_re str) as [m|]; [|reflexivity].
  cbn [option_map].
  destruct (JSON_parse (Regex.matched m)) as [data|e]; [|reflexivity].
  cbn [bind]. rewrite results_check. reflexivity.
Qed.

Lemma tryParsePubMed_refines (text : js_string) :
  tryParsePubMed (VStr text) = Normal (tryParsePubMed_spec text).
Proof.
  unfold tryParsePubMed, tryParsePubMed_spec, scanned.
  pose proof (search_code_block_re (trim text)) as Hs.
  pose proof (captured_interior (trim text)) as Hc.
  destruct (Regex.search code_block_re (trim text)) as [m|];
    destruct (captured (trim text)) as [g|]; try discriminate Hs.
  - injection Hs as Hs. rewrite Hs. destruct Hc as [pre [Hi Hp]].
    rewrite Hi. cbn [bind]. rewrite sniff_tail.
    now rewrite brace_span_trim, brace_span_prefix.
  - rewrite Hc. cbn [bind]. apply sniff_tail.
Qed.

End Sniffer.

(** ** The JSON reader consumes input and never lacks fuel *)

Lemma skip_ws_length (s : js_string) : length (skip_ws s) <= length s.
Proof.
  induction s as [|x s IH]; simpl; [lia|].
  destruct (is_json_space x); simpl; lia.
Qed.

Lemma skip_ws_cons (s : js_string) (c : char) (r : js_string) :
  skip_ws s = c :: r -> length r < length s.
Proof.
  intros H. pose proof (skip_ws_length s) as Hl. rewrite H in Hl.
  simpl in Hl. lia.
Qed.

Lemma lex_string_length (s t r : js_string) :
  lex_string s = Some (t, r) -> length r < length s.
Proof.
  remember (length s) as n eqn:Hn.
  revert s t r Hn. induction n as [n IH] using lt_wf_ind. intros s t r Hn H.
  destruct s as [|c s]; [discriminate|]. cbn [lex_string] in H.
  assert (Hrec : forall s' t' r', length s' < n -> lex_string s' = Some (t', r') ->
                                  length r' < length s').
  { intros s' t' r' Hl. now apply (IH (length s') Hl s' t' r'). }
  simpl in Hn.
  destruct (char_eqb c quote).
  { inversion H; subst. lia. }
  destruct (char_eqb c (ch "\")).
  - destruct s as [|e r1]; [discriminate|].
    assert (Hsimple : forall x, match lex_string r1 with
                                | Some (t0, rest) => Some (x :: t0, rest)
                                | None => None
                                end = Some (t, r) ->
                                length r < n).
    { intros x Hx. destruct (lex_string r1) as [[t0 rest]|] eqn:Hr1;
        [|discriminate].
      inversion Hx; subst. apply Hrec in Hr1; simpl in *; lia. }
    cbv zeta in H.
    repeat match type of H with
           | (if ?b then _ else _) = _ =>
               destruct b; [now apply (Hsimple _ H)|]
           end.
    destruct (char_eqb e (ch "u")); [|discriminate].
    destruct r1 as [|h1 [|h2 [|h3 [|h4 r2]]]]; try discriminate.
    destruct (hex4 h1 h2 h3 h4); [|discriminate].
    destruct (lex_string r2) as [[t0 rest]|] eqn:Hr2; [|discriminate].
    inversion H; subst. apply Hrec in Hr2; simpl in *; lia.
  - destruct (c <? 32)%N; [discriminate|].
    destruct (lex_string s) as [[t0 rest]|] eqn:Hs; [|discriminate].
    inversion H; subst. apply Hrec in Hs; simpl in *; lia.
Qed.

Lemma span_digits_length (s d r : js_string) :
  span_digits s = (d, r) -> length r <= length s.
Proof.
  revert d r; induction s as [|x s IH]; intros d r H; simpl in H.
  - inversion H; subst. simpl. lia.
  - destruct (is_digit x).
    + destruct (span_digits s) as [d' r'] eqn:Hs. inversion H; subst.
      specialize (IH _ _ eq_refl). simpl. lia.
    + inversion H; subst. lia.
Qed.

Lemma digits1_length (s d r : js_string) :
  digits1 s = Some (d, r) -> length r <= length s.
Proof.
  unfold digits1. destruct (span_digits s) as [d' r'] eqn:Hs.
  apply span_digits_length in Hs.
  destruct d'; intros H; inversion H; subst. exact Hs.
Qed.

Ltac break_hyp :=
  match goal with
  | H : context [match ?x with _ => _ end] |- _ =>
      let Hx := fresh "Hx" in destruct x eqn:Hx
  | H : (_, _) = (_, _) |- _ => inversion H; subst; clear H
  | H : Some _ = Some _ |- _ => inversion H; subst; clear H
  | H : Some _ = None |- _ => discriminate H
  | H : None = Some _ |- _ => discriminate H
  end.

Lemma lex_number_length (s t r : js_string) :
  lex_number s = Some (t, r) -> length r <= length s.
Proof.
  unfold lex_number. intros H. cbv zeta in H.
  repeat break_hyp;
    repeat match goal with
           | Hd : digits1 _ = Some _ |- _ => apply digits1_length in Hd
           end;
    simpl in *; lia.
Qed.

Section Reader.

Context {E : Engine}.

Ltac length_facts :=
  repeat match goal with
         | H : skip_ws _ = _ :: _ |- _ => apply skip_ws_cons in H
         | H : lex_string _ = Some _ |- _ => apply lex_string_length in H
         | H : lex_number _ = Some _ |- _ => apply lex_number_length in H
         | H : strip_prefix _ _ = Some _ |- _ => apply strip_prefix_length in H
         end.

(** What a reader leaves is no longer than what it was given. *)
Lemma parse_progress (fuel : nat) :
  (forall s v r, parse_value fuel s = Parsed v r -> length r <= length s) /\
  (forall acc s v r, parse_elements fuel acc s = Parsed v r ->
                     length r <= length s) /\
  (forall acc s v r, parse_members fuel acc s = Parsed v r ->
                     length r <= length s).
Proof.
  induction fuel as [|fuel [IHv [IHe IHm]]]; [repeat split; discriminate|].
  repeat split.
  - intros s v r H. cbn [parse_value] in H.
    repeat break_hyp; try discriminate;
      repeat match goal with
             | H' : parse_elements fuel _ _ = Parsed _ _ |- _ => apply IHe in H'
             | H' : parse_members fuel _ _ = Parsed _ _ |- _ => apply IHm in H'
             | H' : Parsed _ _ = Parsed _ _ |- _ => inversion H'; subst; clear H'
             end;
      length_facts; simpl in *; lia.
  - intros acc s v r H. cbn [parse_elements] in H.
    repeat break_hyp; try discriminate;
      repeat match goal with
             | H' : parse_value fuel _ = Parsed _ _ |- _ => apply IHv in H'
             | H' : parse_elements fuel _ _ = Parsed _ _ |- _ => apply IHe in H'
             | H' : Parsed _ _ = Parsed _ _ |- _ => inversion H'; subst; clear H'
             end;
      length_facts; simpl in *; lia.
  - intros acc s v r H. cbn [parse_members] in H.
    repeat break_hyp; try discriminate;
      repeat match goal with
             | H' : parse_value fuel _ = Parsed _ _ |- _ => apply IHv in H'
             | H' : parse_members fuel _ _ = Parsed _ _ |- _ => apply IHm in H'
             | H' : Parsed _ _ = Parsed _ _ |- _ => inversion H'; subst; clear H'
             end;
      length_facts; simpl in *; lia.
Qed.

(** With twice the length of the input as fuel, plus one or two, a
    reader never stops for lack of fuel. *)
Lemma parse_fuel (fuel : nat) :
  (forall s, 2 * length s + 1 <= fuel -> parse_value fuel s <> OutOfFuel) /\
  (forall acc s, 2 * length s + 2 <= fuel ->
                 parse_elements fuel acc s <> OutOfFuel) /\
  (forall acc s, 2 * length s + 2 <= fuel ->
                 parse_members fuel acc s <> OutOfFuel).
Proof.
  induction fuel as [|fuel [IHv [IHe IHm]]]; [repeat split; intros; lia|].
  repeat split.
  - intros s Hf H. cbn [parse_value] in H.
    repeat break_hyp; try discriminate;
      match goal with
      | H' : parse_elements fuel _ _ = OutOfFuel |- _ => apply IHe in H'
      | H' : parse_members fuel _ _ = OutOfFuel |- _ => apply IHm in H'
      end; try assumption;
      length_facts; simpl in *; lia.
  - intros acc s Hf H. cbn [parse_elements] in H.
    destruct (parse_value fuel s) as [v r| |] eqn:Hv; try discriminate.
    + apply (proj1 (parse_progress fuel)) in Hv.
      repeat break_hyp; try discriminate.
      apply IHe in H; [assumption|]. length_facts. simpl in *; lia.
    + apply IHv in Hv; [assumption|lia].
  - intros acc s Hf H. cbn [parse_members] in H.
    repeat break_hyp; try discriminate;
      repeat match goal with
             | H' : parse_value fuel _ = Parsed _ _ |- _ =>
                 apply (proj1 (parse_progress fuel)) in H'
             end;
      match goal with
      | H' : parse_value fuel _ = OutOfFuel |- _ => apply IHv in H'
      | H' : parse_members fuel _ _ = OutOfFuel |- _ => apply IHm in H'
      end; try assumption;
      length_facts; simpl in *; lia.
Qed.

Lemma parse_value_fuel (text : js_string) :
  parse_value (2 * length text + 2) text <> OutOfFuel.
Proof. apply (proj1 (parse_fuel _)). lia. Qed.

(** [JSON.parse] throws nothing but its syntax error. *)
Lemma JSON_parse_throw (text : js_string) (e : js_error) :
  JSON_parse text = Throw e -> e = syntax_error (BadJSON text).
Proof.
  unfold JSON_parse. intros H.
  repeat break_hyp; congruence.
Qed.

(** A value [JSON.parse] returns is read from the whole text. *)
Lemma JSON_parse_complete (text : js_string) (v : value) :
  JSON_parse text = Normal v ->
  exists rest, parse_value (2 * length text + 2) text = Parsed v rest
               /\ skip_ws rest = [].
Proof.
  unfold JSON_parse. intros H.
  destruct (parse_value (2 * length text + 2) text) as [v' rest| |];
    try discriminate.
  destruct (skip_ws rest) eqn:Hr; [|discriminate].
  injection H as <-. now exists rest.
Qed.

End Reader.

Section Controller.

Context {E : Engine}.

Lemma sendable_role (m : value) :
  nullish m = false -> sendable m = Normal (has_chat_role m).
Proof.
  intros H. unfold sendable, get, has_chat_role. rewrite H. cbn [bind].
  now destruct (is_literal (member m (js "role")) (js "user")).
Qed.

Lemma filter_sendable (l : list value) :
  Forall (fun m => nullish m = false) l ->
  filter_c sendable l = Normal (filter has_chat_role l).
Proof.
  induction 1 as [|m l Hm _ IH]; [reflexivity|].
  cbn [filter_c filter]. rewrite (sendable_role _ Hm), IH. reflexivity.
Qed.

Lemma chat_request_filtered (l : list value) :
  Forall (fun m => nullish m = false) l ->
  chat_request l =
  Normal (mk_request (js "/api/chat") (js "POST")
            [(js "Content-Type", js "application/json")]
            (VObj [(js "messages", VArr (filter has_chat_role l))])).
Proof. intros H. unfold chat_request. now rewrite filter_sendable. Qed.

Lemma next_messages_entries (l : list value) (text : js_string) :
  Forall (fun m => nullish m = false) l ->
  Forall (fun m => nullish m = false) (l ++ [user_message text]).
Proof. intros H. apply Forall_app. split; [exact H|now constructor]. Qed.


Lemma App_send_awaits (st : state) (userText : value) (l : list value) :
  conversation st l -> loading st = false ->
  App.effective_text st userText <> [] ->
  App.send st userText =
  Awaiting (waiting l (App.effective_text st userText))
    (outbound l (App.effective_text st userText))
    (fun o => finally
                (try_catch_a
                   (reconcile (VArr (l ++ [user_message (App.effective_text st userText)])) o)
                   App.handler)
                App.cleanup).
Proof.
  intros [Hm Hl] Hload Htext. unfold App.send.
  destruct (App.effective_text st userText) as [|c text] eqn:Ht; [congruence|].
  rewrite Hload. cbn [orb].
  unfold bind_a, setError, setLoading, setMessages, setInput, lift, ret.
  cbn [messages input loading error]. rewrite Hm. cbn [spread].
  rewrite chat_request_filtered by (now apply next_messages_entries).
  reflexivity.
Qed.

Lemma Part000_send_awaits (st : state) (l : list value) :
  conversation st l -> loading st = false ->
  Part000.effective_text st <> [] ->
  Part000.send st =
  Awaiting (waiting l (Part000.effective_text st))
    (outbound l (Part000.effective_text st))
    (fun o => finally
                (try_catch_a
                   (reconcile (VArr (l ++ [user_message (Part000.effective_text st)])) o)
                   Part000.handler)
                Part000.cleanup).
Proof.
  intros [Hm Hl] Hload Htext. unfold Part000.send.
  destruct (Part000.effective_text st) as [|c text] eqn:Ht; [congruence|].
  rewrite Hload. cbn [orb].
  unfold bind_a, setError, setLoading, setMessages, setInput, lift, ret.
  cbn [messages input loading error]. rewrite Hm. cbn [spread].
  rewrite chat_request_filtered by (now apply next_messages_entries).
  reflexivity.
Qed.

(** When the [try] block throws, [App.jsx] shows the error and takes the
    last message off the list. *)
Lemma App_caught (body : action state unit) (l : list value) (text : js_string)
  (e : js_error) :
  body (waiting l text) = (waiting l text, Throw e) ->
  finally (try_catch_a body App.handler) App.cleanup (waiting l text) =
  (mk_state (VArr l) [] false (error_text e), Normal tt).
Proof.
  intros H. unfold finally, try_catch_a. rewrite H.
  unfold App.handler, App.cleanup, bind_a, setError, updateMessages, setLoading,
    waiting.
  cbn [messages input loading error slice_0_m1]. now rewrite removelast_last.
Qed.

(** The older client shows the error and leaves the list as it is. *)
Lemma Part000_caught (body : action state unit) (l : list value)
  (text : js_string) (e : js_error) :
  body (waiting l text) = (waiting l text, Throw e) ->
  finally (try_catch_a body Part000.handler) Part000.cleanup (waiting l text) =
  (mk_state (VArr (l ++ [user_message text])) [] false (error_text e), Normal tt).
Proof.
  intros H. unfold finally, try_catch_a. rewrite H. reflexivity.
Qed.

(** A failure response makes the [try] block throw, whatever its body. *)
Lemma reconcile_failure (next : value) (resp : response) (st : state) :
  ok resp = false ->
  exists e, reconcile next (Responded resp) st = (st, Throw e) /\
            forall data, JSON_parse (body_text resp) = Normal data ->
                         forall s, failure_reason data resp = VStr s ->
                                   e = mk_error (js "Error") s.
Proof.
  intros Hok. unfold reconcile, bind_a, lift. rewrite Hok. cbn [negb].
  destruct (JSON_parse (body_text resp)) as [data|e0].
  - fold (failure_reason data resp).
    destruct (new_Error (failure_reason data resp)) as [e|e] eqn:He.
    + exists e. split; [reflexivity|].
      intros d Hd s Hs. injection Hd as <-. rewrite Hs in He.
      injection He as <-. reflexivity.
    + exists e. split; [reflexivity|].
      intros d Hd s Hs. injection Hd as <-. rewrite Hs in He. discriminate.
  - exists e0. split; [reflexivity|]. discriminate.
Qed.

End Controller.

Section SnifferClaims.

Context {E : Engine}.

Lemma spec_accepts (text : js_string) (payload : value) :
  tryParsePubMed_spec text = payload -> payload <> VNull ->
  exists candidate items,
    brace_span (scanned text) = Some candidate /\
    JSON_parse candidate = Normal payload /\
    member payload (js "results") = VArr items.
Proof.
  unfold tryParsePubMed_spec, accept. intros H Hn.
  destruct (brace_span (scanned text)) as [candidate|]; [|congruence].
  destruct (JSON_parse candidate) as [data|e] eqn:Hp; [|congruence].
  destruct (member data (js "results")) as [| | | | |items|] eqn:Hm;
    try congruence.
  subst data. now exists candidate, items.
Qed.

Lemma map_c_nth {A} (f : value -> nat -> completion A) (l : list value) :
  forall i0 cs, map_c f i0 l = Normal cs ->
  length cs = length l /\
  forall i r, nth_error l i = Some r ->
              exists c, nth_error cs i = Some c /\ f r (i0 + i) = Normal c.
Proof.
  induction l as [|x l IH]; intros i0 cs H; cbn [map_c] in H.
  - injection H as <-. split; [reflexivity|]. intros [|i] r Hr; discriminate.
  - destruct (f x i0) as [y|e] eqn:Hy; [|discriminate]. cbn [bind] in H.
    destruct (map_c f (S i0) l) as [cs'|e] eqn:Hcs; [|discriminate].
    injection H as <-. destruct (IH _ _ Hcs) as [Hlen Hnth].
    split; [simpl; now rewrite Hlen|].
    intros [|i] r Hr; simpl in Hr.
    + injection Hr as <-. exists y. rewrite Nat.add_0_r. now split.
    + destruct (Hnth _ _ Hr) as [c [Hc Hf]]. exists c.
      split; [exact Hc|]. now rewrite Nat.add_succ_r.
Qed.

(** ToString throws only for want of a primitive. *)
Lemma to_string_throw :
  forall (v : value) (e : js_error),
    to_string v = Throw e -> e = type_error NoPrimitive.
Proof.
  fix IH 1. intros v e.
  destruct v as [| |b|n|s|items|ps]; cbn [to_string]; try discriminate.
  - destruct b; discriminate.
  - induction items as [|x items IHi]; [discriminate|].
    pose proof (IH x) as Hx.
    destruct (nullish x); cbn [bind].
    + destruct items as [|y items]; [discriminate|].
      match goal with
      | |- context [bind ?j _] => destruct j as [b|e0] eqn:Hj
      end; cbn [bind]; [discriminate|].
      intros He. injection He as <-. now apply IHi.
    + destruct (to_string x) as [a|e0]; cbn [bind].
      * destruct items as [|y items]; [discriminate|].
        match goal with
        | |- context [bind ?j _] => destruct j as [b|e1] eqn:Hj
        end; cbn [bind]; [discriminate|].
        intros He. injection He as <-. now apply IHi.
      * intros He. injection He as <-. now apply Hx.
  - destruct (own ps (js "toString")); [|discriminate].
    intros He. now injection He as <-.
Qed.

(** A falsy value always has a string. *)
Lemma to_string_falsy (v : value) :
  truthy v = false -> exists k, to_string v = Normal k.
Proof.
  destruct v as [| |b|n|s|items|ps]; cbn [truthy to_string]; intros H;
    try discriminate H; try (now eexists).
  subst b. now eexists.
Qed.

(** The key of a card has a string exactly when the [pmid] has. *)
Lemma key_string (v : value) (i : nat) :
  to_string (or_value v (VNum (number_of_nat i)))
  = (if truthy v then to_string v
     else Normal (number_to_string (number_of_nat i))).
Proof. unfold or_value. now destruct (truthy v). Qed.

Lemma has_card_true (r : value) :
  has_card r = true <->
  nullish r = false /\ exists k, to_string (member r (js "pmid")) = Normal k.
Proof.
  unfold has_card. destruct (nullish r); cbn [negb andb].
  - split; [discriminate|]. now intros [H _].
  - destruct (to_string (member r (js "pmid"))) as [k|e].
    + split; [|reflexivity]. intros _. split; [reflexivity|now exists k].
    + split; [discriminate|]. intros [_ [k Hk]]. discriminate.
Qed.

(** The card of an entry that has one: every part of it comes from the
    entry itself. *)
Lemma card_value (r : value) (i : nat) :
  has_card r = true ->
  exists key,
    card r i =
    Normal
      (Elem (js "article")
         [(js "key", VStr key); className "pubmed-card"]
         [Elem (js "h3") [className "pubmed-card-title"]
            [Elem (js "a") ((js "href", member r (js "url")) :: new_tab)
               [Expr (or_value (member r (js "title")) (VStr (js "Untitled")))]];
          and_node (member r (js "authors"))
            (Elem (js "p") [className "pubmed-card-meta"]
               [Expr (member r (js "authors"))]);
          and_node (member r (js "journal_citation"))
            (Elem (js "p") [className "pubmed-card-citation"]
               [Expr (member r (js "journal_citation"))]);
          and_node (member r (js "snippet"))
            (Elem (js "p") [className "pubmed-card-snippet"]
               [Expr (member r (js "snippet"))]);
          Elem (js "a")
            ((js "href", member r (js "url")) :: new_tab
             ++ [className "pubmed-card-link"])
            [Text (js "View on PubMed " ++ [8594%N])]]).
Proof.
  intros H. apply has_card_true in H. destruct H as [Hn [k Hk]].
  unfold card, get. rewrite Hn. cbn [bind]. rewrite key_string.
  destruct (truthy (member r (js "pmid"))).
  - rewrite Hk. cbn [bind]. now eexists.
  - cbn [bind]. now eexists.
Qed.

(** An entry without card makes [card] throw: on the first read, of
    [url], when it is [null] or [undefined], and on the key otherwise. *)
Lemma card_without (r : value) (i : nat) :
  has_card r = false ->
  card r i
  = Throw (type_error (if nullish r then NullishRead (js "url") else NoPrimitive)).
Proof.
  unfold has_card, card, get. destruct (nullish r); cbn [negb andb bind];
    [reflexivity|].
  rewrite key_string.
  destruct (to_string (member r (js "pmid"))) as [k|e] eqn:Hk; [discriminate|].
  intros _. destruct (truthy (member r (js "pmid"))) eqn:Ht.
  - cbn [bind]. now rewrite (to_string_throw _ Hk).
  - destruct (to_string_falsy _ Ht) as [k Hk']. congruence.
Qed.

Lemma card_title (r : value) (i : nat) (c : node) :
  card r i = Normal c ->
  has_card r = true /\
  title_text c = Some (or_value (member r (js "title")) (VStr (js "Untitled"))).
Proof.
  intros H. destruct (has_card r) eqn:Hc.
  - destruct (card_value r i Hc) as [key Hk]. rewrite Hk in H.
    injection H as <-. now split.
  - rewrite (card_without r i Hc) in H. discriminate.
Qed.

(** [map_c] stops at the first element its callback throws on. *)
Lemma map_c_first_throw {A} (f : value -> nat -> completion A)
  (before after : list value) (r : value) (e : js_error) :
  Forall (fun x => forall i, exists y, f x i = Normal y) before ->
  (forall i, f r i = Throw e) ->
  forall i0, map_c f i0 (before ++ r :: after) = Throw e.
Proof.
  intros Hb Hr. induction Hb as [|x l Hx _ IH]; intros i0; cbn [app map_c].
  - now rewrite Hr.
  - destruct (Hx i0) as [y ->]. cbn [bind]. now rewrite IH.
Qed.

Lemma cards_made (items : list value) :
  Forall (fun r => has_card r = true) items ->
  forall i0, exists cs, map_c card i0 items = Normal cs.
Proof.
  induction 1 as [|x l Hx _ IH]; intros i0; cbn [map_c].
  - now eexists.
  - destruct (card_value x i0 Hx) as [key ->]. cbn [bind].
    destruct (IH (S i0)) as [cs ->]. now eexists.
Qed.

(** The first entry without card, when there is one. *)
Lemma first_without_card (items : list value) :
  Forall (fun r => has_card r = true) items \/
  exists before r after,
    items = before ++ r :: after /\
    Forall (fun x => has_card x = true) before /\ has_card r = false.
Proof.
  induction items as [|x l [IH|[before [r [after [-> [Hb Hr]]]]]]].
  - left. constructor.
  - destruct (has_card x) eqn:Hx.
    + left. now constructor.
    + right. exists [], x, l. now repeat split.
  - destruct (has_card x) eqn:Hx.
    + right. exists (x :: before), r, after. repeat split; [|exact Hr].
      now constructor.
    + right. exists [], x, (before ++ r :: after). now repeat split.
Qed.

Lemma MessageContent_accepted (text : js_string) (payload role : value)
  (items : list value) :
  tryParsePubMed (VStr text) = Normal payload ->
  member payload (js "results") = VArr items ->
  MessageContent (VStr text) role =
  cs <- map_c card 0 items ;;
  Normal (result_set (member payload (js "total_results"))
                     (member payload (js "query")) cs).
Proof.
  intros Hp Hm. unfold MessageContent. rewrite Hp. cbn [bind].
  destruct payload; try discriminate Hm.
  cbn [truthy]. unfold get. cbn [nullish bind]. rewrite Hm. reflexivity.
Qed.

End SnifferClaims.

(* ================================================================= *)
(** * The claims about [tryParsePubMed] and the cards *)

Section SnifferTheorems.

Context {E : Engine}.

(** C2.  On every string, [tryParsePubMed] follows the decision procedure
    of the specification: trim the text; take the interior of the first
    fenced block when there is one; take the substring from the first
    opening brace to the last closing brace, and answer [null] when there
    is none; answer [null] when [JSON.parse] fails on it or when the parsed
    value has no [results] field that is an array; answer the parsed value
    otherwise.  In particular a fenced payload whose [results] is the empty
    array is accepted, with no entry and no count, and is rendered as a
    result set without cards. *)
Theorem tryParsePubMed_decision_procedure :
  (forall text : js_string,
     tryParsePubMed (VStr text) = Normal (tryParsePubMed_spec text)) /\
  tryParsePubMed (VStr fenced_empty_results)
  = Normal (VObj [(js "results", VArr [])]) /\
  member (VObj [(js "results", VArr [])]) (js "results") = VArr [] /\
  member (VObj [(js "results", VArr [])]) (js "total_results") = VUndefined /\
  (forall role,
     MessageContent (VStr fenced_empty_results) role
     = Normal (result_set VUndefined VUndefined [])).
Proof.
  split; [exact tryParsePubMed_refines|].
  split; [rewrite tryParsePubMed_refines; vm_compute; reflexivity|].
  split; [reflexivity|]. split; [reflexivity|].
  intros role. unfold MessageContent. rewrite tryParsePubMed_refines.
  vm_compute. reflexivity.
Qed.

(** C3.  On every value [tryParsePubMed] returns, and never throws: it
    returns [null], or the input is a string and the result is the value
    [JSON.parse] read from the whole of the substring between the braces,
    a value with a [results] array.  The JSON reader itself never stops
    for lack of fuel.  The text [not json] gives [null] and is rendered
    as plain text. *)
Theorem tryParsePubMed_total (content : value) :
  (exists result,
     tryParsePubMed content = Normal result /\
     (result = VNull \/
      exists text candidate rest items,
        content = VStr text /\
        brace_span (scanned text) = Some candidate /\
        JSON_parse candidate = Normal result /\
        parse_value (2 * length candidate + 2) candidate = Parsed result rest /\
        skip_ws rest = [] /\
        member result (js "results") = VArr items)) /\
  (forall text, parse_value (2 * length text + 2) text <> OutOfFuel) /\
  tryParsePubMed (VStr (js "not json")) = Normal VNull /\
  (forall role,
     MessageContent (VStr (js "not json")) role
     = Normal (Elem (js "div") [className "message-text"]
                 [Expr (VStr (js "not json"))])).
Proof.
  split; [|split; [exact parse_value_fuel|split; [reflexivity|reflexivity]]].
  destruct content as [| | | |text| |];
    try (exists VNull; split; [reflexivity|now left]).
  exists (tryParsePubMed_spec text). split; [apply tryParsePubMed_refines|].
  destruct (tryParsePubMed_spec text) eqn:Hs; try (now left); right;
    (destruct (spec_accepts text Hs) as [candidate [entries [Hb [Hp Hm]]]];
     [discriminate|];
     destruct (JSON_parse_complete _ Hp) as [rest [Hv Hr]];
     now exists text, candidate, rest, entries).
Qed.

(** C8.  An accepted payload is the parsed value itself, and its [results]
    are rendered as they come: [MessageContent] returns the result set
    with one card per entry, the i-th card made of the i-th entry and
    titled by it, nothing sorted, dropped or checked, and it returns
    whenever every entry has a card.  The input of the specification's
    example gives two entries, titled A then B. *)
Theorem results_rendered_in_order :
  (forall (text : js_string) (payload : value),
     tryParsePubMed (VStr text) = Normal payload ->
     payload <> VNull ->
     exists candidate items,
       brace_span (scanned text) = Some candidate /\
       JSON_parse candidate = Normal payload /\
       member payload (js "results") = VArr items /\
       (forall role,
          MessageContent (VStr text) role =
          cs <- map_c card 0 items ;;
          Normal
            (Elem (js "div") [className "pubmed-results"]
               [Elem (js "div") [className "pubmed-meta"]
                  [Elem (js "span") []
                     [Elem (js "strong") []
                        [Expr (member payload (js "total_results"))];
                      Text (js " results")];
                   if truthy (member payload (js "query"))
                   then Elem (js "span") []
                          [Text (js "Query: ");
                           Expr (member payload (js "query"))]
                   else Expr (member payload (js "query"))];
                Elem (js "div") [className "pubmed-cards"] cs])) /\
       (Forall (fun r => has_card r = true) items ->
        exists cs, map_c card 0 items = Normal cs) /\
       (forall cs,
          map_c card 0 items = Normal cs ->
          length cs = length items /\
          forall i r, nth_error items i = Some r ->
                      exists c, nth_error cs i = Some c /\
                                card r i = Normal c /\
                                title_text c
                                = Some (or_value (member r (js "title"))
                                          (VStr (js "Untitled"))))) /\
  (let a := VObj [(js "title", VStr (js "A")); (js "url", VStr (js "http://x"))] in
   let b := VObj [(js "title", VStr (js "B")); (js "url", VStr (js "http://y"))] in
   tryParsePubMed (VStr two_results)
   = Normal (VObj [(js "total_results", VNum (number_of_literal (js "2")));
                   (js "results", VArr [a; b])]) /\
   exists ca cb,
     (forall role,
        MessageContent (VStr two_results) role
        = Normal
            (Elem (js "div") [className "pubmed-results"]
               [Elem (js "div") [className "pubmed-meta"]
                  [Elem (js "span") []
                     [Elem (js "strong") []
                        [Expr (VNum (number_of_literal (js "2")))];
                      Text (js " results")];
                   Expr VUndefined];
                Elem (js "div") [className "pubmed-cards"] [ca; cb]])) /\
     card a 0 = Normal ca /\ card b 1 = Normal cb /\
     title_text ca = Some (VStr (js "A")) /\
     title_text cb = Some (VStr (js "B"))).
Proof.
  split.
  - intros text payload Hp Hn.
    rewrite tryParsePubMed_refines in Hp. injection Hp as Hp.
    destruct (spec_accepts text Hp Hn) as [candidate [items [Hb [Hj Hm]]]].
    exists candidate, items.
    split; [exact Hb|]. split; [exact Hj|]. split; [exact Hm|].
    split; [|split].
    + intros role. apply MessageContent_accepted; [|exact Hm].
      rewrite tryParsePubMed_refines. now rewrite Hp.
    + intros Hall. now apply cards_made.
    + intros cs Hcs. destruct (@map_c_nth _ _ card items 0 cs Hcs) as [Hl Hnth].
      split; [exact Hl|]. intros i r Hr.
      destruct (Hnth i r Hr) as [c [Hc Hcard]]. exists c.
      split; [exact Hc|]. split; [exact Hcard|].
      exact (proj2 (card_title _ _ Hcard)).
  - cbv zeta.
    split; [rewrite tryParsePubMed_refines; vm_compute; reflexivity|].
    do 2 eexists. split.
    { intros role. unfold MessageContent.
      rewrite tryParsePubMed_refines. vm_compute. reflexivity. }
    repeat split; vm_compute; reflexivity.
Qed.


End SnifferTheorems.

(* ================================================================= *)
(** * The claims about [send] *)

Section ControllerTheorems.

Context {E : Engine}.

Lemma reconcile_unparsed (next : value) (resp : response) (st : state)
  (e : js_error) :
  JSON_parse (body_text resp) = Throw e ->
  reconcile next (Responded resp) st = (st, Throw e).
Proof. intros H. unfold reconcile, bind_a, lift. now rewrite H. Qed.

Lemma reconcile_success (next : value) (resp : response) (st : state)
  (data : value) :
  ok resp = true ->
  JSON_parse (body_text resp) = Normal data ->
  reconcile next (Responded resp) st =
  if nullish data
  then (st, Throw (type_error (NullishRead (js "messages"))))
  else setMessages (or_value (member data (js "messages")) next) st.
Proof.
  intros Hok Hp. unfold reconcile, bind_a, lift, get. rewrite Hp, Hok.
  cbn [negb]. now destruct (nullish data).
Qed.

Lemma final_state_awaiting (net : request -> fetch_outcome) (st : state)
  (req : request) (resume : fetch_outcome -> action state unit) :
  final_state net (Awaiting st req resume) = fst (resume (net req) st).
Proof. reflexivity. Qed.

Lemma error_text_Error (s : js_string) :
  s <> [] -> error_text (mk_error (js "Error") s) = s.
Proof. destruct s; [congruence|reflexivity]. Qed.

Lemma http_text_nonempty (n : nat) : js "HTTP " ++ decimal n <> [].
Proof. discriminate. Qed.

Lemma failure_reason_message (data : value) (resp : response) (s : js_string) :
  opt_get data (js "message") = VStr s -> s <> [] ->
  failure_reason data resp = VStr s.
Proof.
  intros H Hs. unfold failure_reason, or_value. rewrite H.
  destruct s; [congruence|reflexivity].
Qed.

Lemma failure_reason_error (data : value) (resp : response) (s : js_string) :
  truthy (opt_get data (js "message")) = false ->
  opt_get data (js "error") = VStr s -> s <> [] ->
  failure_reason data resp = VStr s.
Proof.
  intros Hm H Hs. unfold failure_reason, or_value. rewrite Hm, H.
  destruct s; [congruence|reflexivity].
Qed.

Lemma failure_reason_generic (data : value) (resp : response) :
  truthy (opt_get data (js "message")) = false ->
  truthy (opt_get data (js "error")) = false ->
  failure_reason data resp = VStr (js "HTTP " ++ decimal (status resp)).
Proof.
  intros Hm He. unfold failure_reason, or_value. now rewrite Hm, He.
Qed.

Lemma returned (body : action state unit) (h : js_error -> action state unit)
  (st1 st2 : state) :
  body st1 = (st2, Normal tt) ->
  finally (try_catch_a body h) (setLoading false) st1 =
  (mk_state (messages st2) (input st2) false (error st2), Normal tt).
Proof. intros H. unfold finally, try_catch_a. now rewrite H. Qed.

(** C6.  When the effective text is empty or a request is in flight,
    [send] does nothing in either client: the view state keeps its four
    values and no request is made. *)
Theorem send_guard_noop (st st' : state) (userText : value)
  (net : request -> fetch_outcome) :
  App.effective_text st userText = [] \/ loading st = true ->
  Part000.effective_text st' = [] \/ loading st' = true ->
  App.send st userText = Settled st (Normal tt) /\
  final_state net (App.send st userText) = st /\
  requests net (App.send st userText) = [] /\
  Part000.send st' = Settled st' (Normal tt) /\
  final_state net (Part000.send st') = st' /\
  requests net (Part000.send st') = [].
Proof.
  intros H H'.
  assert (Ha : App.send st userText = Settled st (Normal tt)).
  { unfold App.send. destruct H as [-> | ->]; [reflexivity|].
    now destruct (App.effective_text st userText). }
  assert (Hp : Part000.send st' = Settled st' (Normal tt)).
  { unfold Part000.send. destruct H' as [-> | ->]; [reflexivity|].
    now destruct (Part000.effective_text st'). }
  rewrite Ha, Hp. repeat split; reflexivity.
Qed.

(** C5.  With a text to send and no request in flight, each client makes
    exactly one request; its body lists the entries of the history, the
    new user message included, whose role is [user] or [assistant], and
    the list on screen keeps every entry. *)
Theorem send_one_filtered_request (st st' : state) (userText : value)
  (l l' : list value) (net : request -> fetch_outcome) :
  conversation st l -> loading st = false ->
  App.effective_text st userText <> [] ->
  conversation st' l' -> loading st' = false ->
  Part000.effective_text st' <> [] ->
  let history := l ++ [user_message (App.effective_text st userText)] in
  let history' := l' ++ [user_message (Part000.effective_text st')] in
  (exists st1 req resume,
     App.send st userText = Awaiting st1 req resume /\
     requests net (App.send st userText) = [req] /\
     body req = VObj [(js "messages", VArr (filter has_chat_role history))] /\
     messages st1 = VArr history) /\
  (exists st1 req resume,
     Part000.send st' = Awaiting st1 req resume /\
     requests net (Part000.send st') = [req] /\
     body req = VObj [(js "messages", VArr (filter has_chat_role history'))] /\
     messages st1 = VArr history').
Proof.
  intros Hc Hl Ht Hc' Hl' Ht' history history'. split.
  - rewrite (App_send_awaits userText Hc Hl Ht).
    do 3 eexists. repeat split; reflexivity.
  - rewrite (Part000_send_awaits Hc' Hl' Ht').
    do 3 eexists. repeat split; reflexivity.
Qed.

(** X19.  What the two [catch] blocks do to the list after a failure
    response: the list of [App.jsx] is the list from before the call; the
    list of the older client is that list and the user message. *)
Theorem failure_response_messages (st st' : state) (userText : value)
  (l l' : list value) (net : request -> fetch_outcome) (resp : response) :
  conversation st l -> loading st = false ->
  App.effective_text st userText <> [] ->
  conversation st' l' -> loading st' = false ->
  Part000.effective_text st' <> [] ->
  (forall req, net req = Responded resp) ->
  ok resp = false ->
  messages (final_state net (App.send st userText)) = messages st /\
  messages (final_state net (Part000.send st'))
  = VArr (l' ++ [user_message (Part000.effective_text st')]).
Proof.
  intros Hc Hl Ht Hc' Hl' Ht' Hnet Hok.
  rewrite (App_send_awaits userText Hc Hl Ht), (Part000_send_awaits Hc' Hl' Ht').
  rewrite !final_state_awaiting, !Hnet. split.
  - destruct (reconcile_failure
                (VArr (l ++ [user_message (App.effective_text st userText)]))
                resp (waiting l (App.effective_text st userText)) Hok)
      as [e [He _]].
    rewrite (App_caught _ He). destruct Hc as [-> _]. reflexivity.
  - destruct (reconcile_failure
                (VArr (l' ++ [user_message (Part000.effective_text st')]))
                resp (waiting l' (Part000.effective_text st')) Hok)
      as [e [He _]].
    rewrite (Part000_caught _ He). reflexivity.
Qed.

(** C4, as amended.  After a success response whose body is a JSON value
    other than [null], the list of either client is the [messages] of the
    body when that is truthy, as every list is, the empty one too: the
    whole list is replaced.  When [messages] is absent or falsy the list is
    the optimistic one. *)
Theorem success_response_messages (st st' : state) (userText : value)
  (l l' : list value) (net : request -> fetch_outcome) (resp : response)
  (data : value) :
  conversation st l -> loading st = false ->
  App.effective_text st userText <> [] ->
  conversation st' l' -> loading st' = false ->
  Part000.effective_text st' <> [] ->
  (forall req, net req = Responded resp) ->
  ok resp = true ->
  JSON_parse (body_text resp) = Normal data ->
  nullish data = false ->
  let answer := member data (js "messages") in
  let shown := messages (final_state net (App.send st userText)) in
  let shown' := messages (final_state net (Part000.send st')) in
  (forall served, answer = VArr served ->
                  shown = VArr served /\ shown' = VArr served) /\
  (truthy answer = true -> shown = answer /\ shown' = answer) /\
  (truthy answer = false ->
   shown = VArr (l ++ [user_message (App.effective_text st userText)]) /\
   shown' = VArr (l' ++ [user_message (Part000.effective_text st')])).
Proof.
  intros Hc Hl Ht Hc' Hl' Ht' Hnet Hok Hp Hn answer shown shown'.
  assert (Hs : shown = or_value answer
                 (VArr (l ++ [user_message (App.effective_text st userText)]))).
  { unfold shown. rewrite (App_send_awaits userText Hc Hl Ht).
    rewrite final_state_awaiting, Hnet.
    rewrite (@returned _ _ _
               (mk_state (or_value answer
                            (VArr (l ++ [user_message (App.effective_text st userText)])))
                         [] true [])); [reflexivity|].
    rewrite (reconcile_success _ resp _ Hok Hp), Hn. reflexivity. }
  assert (Hs' : shown' = or_value answer
                  (VArr (l' ++ [user_message (Part000.effective_text st')]))).
  { unfold shown'. rewrite (Part000_send_awaits Hc' Hl' Ht').
    rewrite final_state_awaiting, Hnet.
    rewrite (@returned _ _ _
               (mk_state (or_value answer
                            (VArr (l' ++ [user_message (Part000.effective_text st')])))
                         [] true [])); [reflexivity|].
    rewrite (reconcile_success _ resp _ Hok Hp), Hn. reflexivity. }
  rewrite Hs, Hs'. unfold or_value. split; [|split].
  - intros served Hlist. now rewrite Hlist.
  - intros Htrue. now rewrite Htrue.
  - intros Hfalse. now rewrite Hfalse.
Qed.

(** C7, as amended.  After a failure response whose body is valid JSON,
    the error string of either client is the [message] of the body when
    that is a non-empty string; else, [message] being absent or falsy, its
    [error] when that is a non-empty string; else, both being absent or
    falsy, the text [HTTP] and the status. *)
Theorem failure_response_error (st st' : state) (userText : value)
  (l l' : list value) (net : request -> fetch_outcome) (resp : response)
  (data : value) :
  conversation st l -> loading st = false ->
  App.effective_text st userText <> [] ->
  conversation st' l' -> loading st' = false ->
  Part000.effective_text st' <> [] ->
  (forall req, net req = Responded resp) ->
  ok resp = false ->
  JSON_parse (body_text resp) = Normal data ->
  let shown := error (final_state net (App.send st userText)) in
  let shown' := error (final_state net (Part000.send st')) in
  let message := opt_get data (js "message") in
  let reason := opt_get data (js "error") in
  (forall s, message = VStr s -> s <> [] -> shown = s /\ shown' = s) /\
  (truthy message = false ->
   forall s, reason = VStr s -> s <> [] -> shown = s /\ shown' = s) /\
  (truthy message = false -> truthy reason = false ->
   shown = js "HTTP " ++ decimal (status resp) /\
   shown' = js "HTTP " ++ decimal (status resp)).
Proof.
  intros Hc Hl Ht Hc' Hl' Ht' Hnet Hok Hp shown shown' message reason.
  assert (Hs : forall s, failure_reason data resp = VStr s -> s <> [] ->
                         shown = s /\ shown' = s).
  { intros s Hr Hs. unfold shown, shown'.
    rewrite (App_send_awaits userText Hc Hl Ht), (Part000_send_awaits Hc' Hl' Ht').
    rewrite !final_state_awaiting, !Hnet. split.
    - destruct (reconcile_failure
                  (VArr (l ++ [user_message (App.effective_text st userText)]))
                  resp (waiting l (App.effective_text st userText)) Hok)
        as [e [He Hd]].
      rewrite (App_caught _ He), (Hd _ Hp _ Hr). cbn [fst error].
      now apply error_text_Error.
    - destruct (reconcile_failure
                  (VArr (l' ++ [user_message (Part000.effective_text st')]))
                  resp (waiting l' (Part000.effective_text st')) Hok)
        as [e [He Hd]].
      rewrite (Part000_caught _ He), (Hd _ Hp _ Hr). cbn [fst error].
      now apply error_text_Error. }
  split; [|split].
  - intros s Hm Hne. apply Hs; [|exact Hne]. now apply failure_reason_message.
  - intros Hm s Hr Hne. apply Hs; [|exact Hne]. now apply failure_reason_error.
  - intros Hm Hr. apply Hs; [|apply http_text_nonempty].
    now apply failure_reason_generic.
Qed.

(** C10.  When the body of the response is not valid JSON, or is the JSON
    value [null], [send] takes the failure path whatever the status: the
    [try] block throws before it touches the list, the text of what it
    threw becomes the error string, and [App.jsx] alone takes the
    optimistic user message off the list.  What is thrown is the syntax
    error of the body; for a [null] body it is the type error of reading
    [messages] of [null] under a success status and the [HTTP] error under
    a failure status. *)
Theorem unreadable_body_fails (st st' : state) (userText : value)
  (l l' : list value) (net : request -> fetch_outcome) (resp : response) :
  conversation st l -> loading st = false ->
  App.effective_text st userText <> [] ->
  conversation st' l' -> loading st' = false ->
  Part000.effective_text st' <> [] ->
  (forall req, net req = Responded resp) ->
  (exists e0, JSON_parse (body_text resp) = Throw e0)
  \/ JSON_parse (body_text resp) = Normal VNull ->
  exists e,
    (forall next st1, reconcile next (Responded resp) st1 = (st1, Throw e)) /\
    final_state net (App.send st userText)
    = mk_state (messages st) [] false (error_text e) /\
    final_state net (Part000.send st')
    = mk_state (VArr (l' ++ [user_message (Part000.effective_text st')]))
               [] false (error_text e) /\
    ((exists e0, JSON_parse (body_text resp) = Throw e0) ->
     e = syntax_error (BadJSON (body_text resp))) /\
    (JSON_parse (body_text resp) = Normal VNull -> ok resp = true ->
     e = type_error (NullishRead (js "messages"))) /\
    (JSON_parse (body_text resp) = Normal VNull -> ok resp = false ->
     e = mk_error (js "Error") (js "HTTP " ++ decimal (status resp))).
Proof.
  intros Hc Hl Ht Hc' Hl' Ht' Hnet Hbody.
  assert (He : exists e,
    (forall next st1, reconcile next (Responded resp) st1 = (st1, Throw e)) /\
    ((exists e0, JSON_parse (body_text resp) = Throw e0) ->
     e = syntax_error (BadJSON (body_text resp))) /\
    (JSON_parse (body_text resp) = Normal VNull -> ok resp = true ->
     e = type_error (NullishRead (js "messages"))) /\
    (JSON_parse (body_text resp) = Normal VNull -> ok resp = false ->
     e = mk_error (js "Error") (js "HTTP " ++ decimal (status resp)))).
  { destruct Hbody as [[e0 H0] | Hnull].
    - exists e0. split; [intros; now apply reconcile_unparsed|].
      split; [intros _; now apply JSON_parse_throw in H0|].
      split; intros Hn; rewrite H0 in Hn; discriminate.
    - destruct (ok resp) eqn:Hok.
      + exists (type_error (NullishRead (js "messages"))).
        split; [intros; now rewrite (reconcile_success _ resp _ Hok Hnull)|].
        split; [intros [e0 H0]; rewrite H0 in Hnull; discriminate|].
        split; [reflexivity|discriminate].
      + exists (mk_error (js "Error") (js "HTTP " ++ decimal (status resp))).
        split.
        { intros next st1. unfold reconcile, bind_a, lift.
          rewrite Hnull, Hok. reflexivity. }
        split; [intros [e0 H0]; rewrite H0 in Hnull; discriminate|].
        split; [discriminate|reflexivity]. }
  destruct He as [e [Hr [H1 [H2 H3]]]]. exists e.
  split; [exact Hr|].
  rewrite (App_send_awaits userText Hc Hl Ht), (Part000_send_awaits Hc' Hl' Ht').
  rewrite !final_state_awaiting, !Hnet.
  rewrite (App_caught _ (Hr _ _)), (Part000_caught _ (Hr _ _)).
  destruct Hc as [-> _]. repeat split; assumption.
Qed.

End ControllerTheorems.

(* ================================================================= *)
(** * Concrete runs of the theorems, and the runs the claims fail on *)

Lemma typing_conversation : conversation typing_state [greeting].
Proof. split; [reflexivity|repeat constructor]. Qed.

Lemma noted_conversation : conversation noted_state [greeting; system_note].
Proof. split; [reflexivity|repeat constructor]. Qed.

Lemma results_rendered_in_order_witness :
  tryParsePubMed (E := sample_engine) (VStr two_results) = Normal two_payload /\
  two_payload <> VNull /\
  exists ca cb,
    (forall role,
       MessageContent (VStr two_results) role
       = Normal
           (Elem (js "div") [className "pubmed-results"]
              [Elem (js "div") [className "pubmed-meta"]
                 [Elem (js "span") []
                    [Elem (js "strong") []
                       [Expr (VNum (number_of_literal (js "2")))];
                     Text (js " results")];
                  Expr VUndefined];
               Elem (js "div") [className "pubmed-cards"] [ca; cb]])) /\
    card entry_a 0 = Normal ca /\ card entry_b 1 = Normal cb /\
    title_text ca = Some (VStr (js "A")) /\
    title_text cb = Some (VStr (js "B")).
Proof.
  assert (H1 : tryParsePubMed (E := sample_engine) (VStr two_results)
               = Normal two_payload)
    by (vm_compute; reflexivity).
  assert (H2 : two_payload <> VNull) by discriminate.
  split; [exact H1|]. split; [exact H2|].
  destruct (proj1 (results_rendered_in_order (E := sample_engine)) _ _ H1 H2)
    as [candidate [items [_ [_ [Hm [Hview [Hmade Hcards]]]]]]].
  assert (Hitems : items = [entry_a; entry_b])
    by (change (VArr [entry_a; entry_b] = VArr items) in Hm;
        now injection Hm as <-).
  subst items.
  destruct Hmade as [cs Hcs]; [repeat constructor|].
  destruct (Hcards cs Hcs) as [Hlen Hnth].
  destruct (Hnth 0 entry_a eq_refl) as [ca [Ha [Hca Hta]]].
  destruct (Hnth 1 entry_b eq_refl) as [cb [Hb [Hcb Htb]]].
  destruct cs as [|ca' [|cb' [|x cs]]]; try discriminate Hlen.
  injection Ha as ->. injection Hb as ->.
  exists ca, cb. split.
  - intros role. rewrite Hview, Hcs. reflexivity.
  - split; [exact Hca|]. split; [exact Hcb|]. split; [exact Hta|exact Htb].
Defined.



Lemma send_guard_noop_witness :
  (App.effective_text blank_state VUndefined = [] \/ loading blank_state = true) /\
  (Part000.effective_text busy_state = [] \/ loading busy_state = true) /\
  App.send blank_state VUndefined = Settled blank_state (Normal tt) /\
  requests (answers boom_500) (App.send blank_state VUndefined) = [] /\
  Part000.send busy_state = Settled busy_state (Normal tt) /\
  requests (answers boom_500) (Part000.send busy_state) = [].
Proof.
  assert (H1 : App.effective_text blank_state VUndefined = []
               \/ loading blank_state = true) by (left; reflexivity).
  assert (H2 : Part000.effective_text busy_state = []
               \/ loading busy_state = true) by (right; reflexivity).
  split; [exact H1|]. split; [exact H2|].
  destruct (@send_guard_noop sample_engine blank_state busy_state VUndefined
              (answers boom_500) H1 H2) as [Ha [_ [Hr [Hp [_ Hr']]]]].
  repeat split; assumption.
Defined.

Lemma send_one_filtered_request_witness :
  conversation noted_state [greeting; system_note] /\
  loading noted_state = false /\
  App.effective_text noted_state (VStr (js "Papers about COVID-19 vaccine efficacy")) <> [] /\
  conversation typing_state [greeting] /\
  loading typing_state = false /\
  Part000.effective_text typing_state <> [] /\
  (exists req,
     requests (answers served_200)
       (App.send noted_state (VStr (js "Papers about COVID-19 vaccine efficacy")))
     = [req] /\
     body req
     = VObj [(js "messages",
              VArr [greeting;
                    user_message (js "Papers about COVID-19 vaccine efficacy")])]) /\
  (exists req,
     requests (answers served_200) (Part000.send typing_state) = [req] /\
     body req
     = VObj [(js "messages",
              VArr [greeting; user_message (js "aging and memory")])]).
Proof.
  assert (Ht : App.effective_text noted_state
                 (VStr (js "Papers about COVID-19 vaccine efficacy")) <> [])
    by (vm_compute; discriminate).
  assert (Ht' : Part000.effective_text typing_state <> [])
    by (vm_compute; discriminate).
  split; [exact noted_conversation|]. split; [reflexivity|].
  split; [exact Ht|]. split; [exact typing_conversation|].
  split; [reflexivity|]. split; [exact Ht'|].
  destruct (@send_one_filtered_request sample_engine noted_state typing_state
              (VStr (js "Papers about COVID-19 vaccine efficacy")) _ _
              (answers served_200)
              noted_conversation eq_refl Ht typing_conversation eq_refl Ht')
    as [[st1 [req [resume [_ [Hr [Hb _]]]]]] [st1' [req' [resume' [_ [Hr' [Hb' _]]]]]]].
  split.
  - exists req. split; [exact Hr|]. rewrite Hb. vm_compute. reflexivity.
  - exists req'. split; [exact Hr'|]. rewrite Hb'. vm_compute. reflexivity.
Defined.

Lemma failure_response_messages_witness :
  conversation noted_state [greeting; system_note] /\
  loading noted_state = false /\
  App.effective_text noted_state VUndefined <> [] /\
  conversation typing_state [greeting] /\
  loading typing_state = false /\
  Part000.effective_text typing_state <> [] /\
  (forall req, answers boom_500 req = Responded boom_500) /\
  ok boom_500 = false /\
  messages (final_state (answers boom_500) (App.send noted_state VUndefined))
  = messages noted_state /\
  messages (final_state (answers boom_500) (Part000.send typing_state))
  = VArr ([greeting] ++ [user_message (Part000.effective_text typing_state)]).
Proof.
  assert (Ht : App.effective_text noted_state VUndefined <> [])
    by (vm_compute; discriminate).
  assert (Ht' : Part000.effective_text typing_state <> [])
    by (vm_compute; discriminate).
  assert (Hnet : forall req, answers boom_500 req = Responded boom_500)
    by reflexivity.
  split; [exact noted_conversation|]. split; [reflexivity|].
  split; [exact Ht|]. split; [exact typing_conversation|].
  split; [reflexivity|]. split; [exact Ht'|]. split; [exact Hnet|].
  split; [reflexivity|].
  exact (@failure_response_messages sample_engine noted_state typing_state
           VUndefined _ _ (answers boom_500) boom_500
           noted_conversation eq_refl Ht typing_conversation eq_refl Ht'
           Hnet eq_refl).
Defined.

(** C1.  The older client breaks the rollback: on a failure response to
    the question typed after the greeting, [App.jsx] ends with the list
    from before the call, and the older client, on the same state and
    response, ends with the user message still on its list. *)
Lemma older_client_keeps_failed_message :
  ok boom_500 = false /\
  requests (answers boom_500) (App.send typing_state VUndefined)
  = [outbound [greeting] (js "aging and memory")] /\
  messages (final_state (answers boom_500) (App.send typing_state VUndefined))
  = messages typing_state /\
  requests (answers boom_500) (Part000.send typing_state)
  = [outbound [greeting] (js "aging and memory")] /\
  messages (final_state (answers boom_500) (Part000.send typing_state))
  = VArr [greeting; user_message (js "aging and memory")] /\
  messages (final_state (answers boom_500) (Part000.send typing_state))
  <> messages typing_state.
Proof.
  split; [reflexivity|]. split; [vm_compute; reflexivity|].
  split; [vm_compute; reflexivity|]. split; [vm_compute; reflexivity|].
  split; [vm_compute; reflexivity|]. vm_compute. discriminate.
Qed.

Lemma success_response_messages_witness :
  conversation noted_state [greeting; system_note] /\
  loading noted_state = false /\
  App.effective_text noted_state VUndefined <> [] /\
  conversation typing_state [greeting] /\
  loading typing_state = false /\
  Part000.effective_text typing_state <> [] /\
  (forall req, answers served_200 req = Responded served_200) /\
  ok served_200 = true /\
  (exists data served,
     JSON_parse (body_text served_200) = Normal data /\
     nullish data = false /\
     member data (js "messages") = VArr served /\
     messages (final_state (answers served_200) (App.send noted_state VUndefined))
     = VArr served /\
     messages (final_state (answers served_200) (Part000.send typing_state))
     = VArr served).
Proof.
  assert (Ht : App.effective_text noted_state VUndefined <> [])
    by (vm_compute; discriminate).
  assert (Ht' : Part000.effective_text typing_state <> [])
    by (vm_compute; discriminate).
  assert (Hnet : forall req, answers served_200 req = Responded served_200)
    by reflexivity.
  split; [exact noted_conversation|]. split; [reflexivity|].
  split; [exact Ht|]. split; [exact typing_conversation|].
  split; [reflexivity|]. split; [exact Ht'|]. split; [exact Hnet|].
  split; [reflexivity|].
  destruct (JSON_parse (E := sample_engine) (body_text served_200))
    as [data|e] eqn:Hp; [|vm_compute in Hp; discriminate Hp].
  assert (Hd : data = VObj [(js "messages",
                             VArr [VObj [(js "role", VStr (js "assistant"));
                                         (js "content", VStr (js "No results."))]])])
    by (vm_compute in Hp; injection Hp as <-; reflexivity).
  assert (Hn : nullish data = false) by (now rewrite Hd).
  exists data, [VObj [(js "role", VStr (js "assistant"));
                      (js "content", VStr (js "No results."))]].
  split; [reflexivity|]. split; [exact Hn|].
  assert (Hm : member data (js "messages")
               = VArr [VObj [(js "role", VStr (js "assistant"));
                             (js "content", VStr (js "No results."))]])
    by (now rewrite Hd).
  split; [exact Hm|].
  exact (proj1 (@success_response_messages sample_engine noted_state typing_state
                  VUndefined _ _ (answers served_200) served_200 data
                  noted_conversation eq_refl Ht typing_conversation eq_refl Ht'
                  Hnet eq_refl Hp Hn) _ Hm).
Defined.

(** C4 fails on a success response whose body is [null]: [App.jsx] takes
    the failure path and shows the list from before the call, not the
    optimistic one.  It fails as well when [messages] is there and is no
    list: the clients store it as it is. *)
Lemma success_without_list_not_optimistic :
  (ok null_200 = true /\
   JSON_parse (E := sample_engine) (body_text null_200) = Normal VNull /\
   messages (final_state (answers null_200) (App.send typing_state VUndefined))
   = VArr [greeting] /\
   messages (final_state (answers null_200) (App.send typing_state VUndefined))
   <> VArr [greeting; user_message (js "aging and memory")]) /\
  (ok text_messages_200 = true /\
   JSON_parse (E := sample_engine) (body_text text_messages_200)
   = Normal (VObj [(js "messages", VStr (js "hi"))]) /\
   messages (final_state (answers text_messages_200)
               (App.send typing_state VUndefined))
   = VStr (js "hi") /\
   messages (final_state (answers text_messages_200) (Part000.send typing_state))
   = VStr (js "hi")).
Proof.
  split.
  - split; [reflexivity|]. split; [vm_compute; reflexivity|].
    split; [vm_compute; reflexivity|]. vm_compute. discriminate.
  - split; [reflexivity|]. repeat split; vm_compute; reflexivity.
Qed.

Lemma failure_response_error_witness :
  conversation noted_state [greeting; system_note] /\
  loading noted_state = false /\
  App.effective_text noted_state VUndefined <> [] /\
  conversation typing_state [greeting] /\
  loading typing_state = false /\
  Part000.effective_text typing_state <> [] /\
  (forall req, answers boom_500 req = Responded boom_500) /\
  ok boom_500 = false /\
  JSON_parse (E := sample_engine) (body_text boom_500)
  = Normal (VObj [(js "error", VStr (js "boom"))]) /\
  error (final_state (answers boom_500) (App.send noted_state VUndefined))
  = js "boom" /\
  error (final_state (answers boom_500) (Part000.send typing_state))
  = js "boom".
Proof.
  assert (Ht : App.effective_text noted_state VUndefined <> [])
    by (vm_compute; discriminate).
  assert (Ht' : Part000.effective_text typing_state <> [])
    by (vm_compute; discriminate).
  assert (Hnet : forall req, answers boom_500 req = Responded boom_500)
    by reflexivity.
  assert (Hp : JSON_parse (E := sample_engine) (body_text boom_500)
               = Normal (VObj [(js "error", VStr (js "boom"))]))
    by (vm_compute; reflexivity).
  split; [exact noted_conversation|]. split; [reflexivity|].
  split; [exact Ht|]. split; [exact typing_conversation|].
  split; [reflexivity|]. split; [exact Ht'|]. split; [exact Hnet|].
  split; [reflexivity|]. split; [exact Hp|].
  refine (proj1 (proj2 (@failure_response_error sample_engine noted_state
                          typing_state VUndefined _ _ (answers boom_500) boom_500 _
                          noted_conversation eq_refl Ht
                          typing_conversation eq_refl Ht' Hnet eq_refl Hp))
            eq_refl (js "boom") eq_refl _).
  discriminate.
Defined.

(** C7 fails on a failure response whose body is not JSON: the error
    string is the text of the syntax error, not [HTTP 502].  It fails as
    well when [message] is there and is the empty string: the [error]
    field is shown. *)
Lemma failure_error_not_by_presence :
  (ok html_502 = false /\
   error (final_state (answers html_502) (App.send typing_state VUndefined))
   = js "Unexpected token in JSON" /\
   error (final_state (answers html_502) (Part000.send typing_state))
   = js "Unexpected token in JSON" /\
   error (final_state (answers html_502) (App.send typing_state VUndefined))
   <> js "HTTP 502") /\
  (ok empty_message_500 = false /\
   JSON_parse (E := sample_engine) (body_text empty_message_500)
   = Normal (VObj [(js "message", VStr []); (js "error", VStr (js "boom"))]) /\
   error (final_state (answers empty_message_500)
            (App.send typing_state VUndefined))
   = js "boom" /\
   error (final_state (answers empty_message_500) (Part000.send typing_state))
   = js "boom").
Proof.
  split.
  - split; [reflexivity|]. split; [vm_compute; reflexivity|].
    split; [vm_compute; reflexivity|]. vm_compute. discriminate.
  - split; [reflexivity|]. repeat split; vm_compute; reflexivity.
Qed.

Lemma unreadable_body_fails_witness :
  conversation noted_state [greeting; system_note] /\
  loading noted_state = false /\
  App.effective_text noted_state VUndefined <> [] /\
  conversation typing_state [greeting] /\
  loading typing_state = false /\
  Part000.effective_text typing_state <> [] /\
  (forall req, answers html_502 req = Responded html_502) /\
  ((exists e0, JSON_parse (E := sample_engine) (body_text html_502) = Throw e0)
   \/ JSON_parse (E := sample_engine) (body_text html_502) = Normal VNull) /\
  final_state (answers html_502) (App.send noted_state VUndefined)
  = mk_state (messages noted_state) [] false (js "Unexpected token in JSON") /\
  final_state (answers html_502) (Part000.send typing_state)
  = mk_state (VArr [greeting; user_message (js "aging and memory")]) [] false
             (js "Unexpected token in JSON").
Proof.
  assert (Ht : App.effective_text noted_state VUndefined <> [])
    by (vm_compute; discriminate).
  assert (Ht' : Part000.effective_text typing_state <> [])
    by (vm_compute; discriminate).
  assert (Hnet : forall req, answers html_502 req = Responded html_502)
    by reflexivity.
  assert (Hbody : (exists e0, JSON_parse (E := sample_engine) (body_text html_502)
                              = Throw e0)
                  \/ JSON_parse (E := sample_engine) (body_text html_502)
                     = Normal VNull).
  { left. eexists. vm_compute. reflexivity. }
  split; [exact noted_conversation|]. split; [reflexivity|].
  split; [exact Ht|]. split; [exact typing_conversation|].
  split; [reflexivity|]. split; [exact Ht'|]. split; [exact Hnet|].
  split; [exact Hbody|].
  destruct (@unreadable_body_fails sample_engine noted_state typing_state
              VUndefined _ _ (answers html_502) html_502
              noted_conversation eq_refl Ht typing_conversation eq_refl Ht'
              Hnet Hbody) as [e [_ [Ha [Hp [He _]]]]].
  rewrite Ha, Hp. destruct Hbody as [Hthrow|Hnull].
  - rewrite (He Hthrow). split; reflexivity.
  - vm_compute in Hnull. discriminate Hnull.
Defined.

(* ================================================================= *)
(** * Further properties of the two components *)

(** ** Trimming and the text around a payload *)

Lemma drop_space_head (s : js_string) :
  match drop_space s with
  | x :: _ => is_space x = false
  | [] => True
  end.
Proof.
  induction s as [|x s IH]; simpl; [exact I|].
  destruct (is_space x) eqn:Hx; [exact IH|exact Hx].
Qed.

Lemma drop_space_fixed (s : js_string) :
  match s with
  | x :: _ => is_space x = false
  | [] => True
  end ->
  drop_space s = s.
Proof. destruct s as [|x s]; simpl; [reflexivity|]. now intros ->. Qed.

(** A trimmed string starts with no white space, and neither does it end
    with any. *)
Lemma trim_ends (s : js_string) :
  drop_space (trim s) = trim s /\ drop_space (rev (trim s)) = rev (trim s).
Proof.
  unfold trim. split.
  - apply drop_space_fixed.
    destruct (drop_space_decomp (rev (drop_space s))) as [w [Hw _]].
    apply (f_equal (@rev N)) in Hw. rewrite rev_involutive, rev_app_distr in Hw.
    pose proof (drop_space_head s) as Hh.
    destruct (rev (drop_space (rev (drop_space s)))) as [|x u]; [exact I|].
    rewrite Hw in Hh. exact Hh.
  - rewrite rev_involutive. apply drop_space_fixed, drop_space_head.
Qed.

Lemma trim_idempotent (s : js_string) : trim (trim s) = trim s.
Proof.
  destruct (trim_ends s) as [H1 H2].
  unfold trim at 1. rewrite H1, H2. apply rev_involutive.
Qed.

Lemma strip_prefix_fence_app (y b : js_string) :
  plain b ->
  strip_prefix fence (y ++ b) =
  match strip_prefix fence y with
  | Some r => Some (r ++ b)
  | None => None
  end.
Proof.
  intros Hb.
  assert (Hhead : forall n, strip_prefix (repeat 96%N (S n)) b = None).
  { intros n. destruct Hb as [|x b [Hx _] _]; [reflexivity|].
    simpl. destruct (char_eqb x 96%N) eqn:He; [|reflexivity].
    apply char_eqb_eq in He. contradiction. }
  unfold fence. change (js "```") with [96%N; 96%N; 96%N].
  destruct y as [|a1 [|a2 [|a3 y]]]; cbn [app strip_prefix].
  - exact (Hhead 2).
  - destruct (char_eqb a1 96%N); [exact (Hhead 1)|reflexivity].
  - destruct (char_eqb a1 96%N); [|reflexivity].
    destruct (char_eqb a2 96%N); [exact (Hhead 0)|reflexivity].
  - destruct (char_eqb a1 96%N); [|reflexivity].
    destruct (char_eqb a2 96%N); [|reflexivity].
    now destruct (char_eqb a3 96%N).
Qed.

Lemma split_at_fence_app (y b : js_string) :
  plain b ->
  split_at fence (y ++ b) =
  match split_at fence y with
  | Some (p, r) => Some (p, r ++ b)
  | None => None
  end.
Proof.
  intros Hb. induction y as [|x y IH].
  - simpl app. rewrite <- (app_nil_r b) at 1.
    now rewrite split_at_fence_plain.
  - change ((x :: y) ++ b) with (x :: y ++ b). cbn [split_at].
    change (x :: y ++ b) with ((x :: y) ++ b).
    rewrite (strip_prefix_fence_app (x :: y) Hb).
    destruct (strip_prefix fence (x :: y)) as [r|]; [reflexivity|].
    rewrite IH. now destruct (split_at fence y) as [[p r]|].
Qed.

(** Text without back quote and brace around a string changes neither
    its first fenced block nor the span of its braces. *)
Lemma fenced_interior_plain (a s b : js_string) :
  plain a -> plain b -> fenced_interior (a ++ s ++ b) = fenced_interior s.
Proof.
  intros Ha Hb. unfold fenced_interior.
  rewrite (split_at_fence_plain _ Ha), (split_at_fence_app _ Hb).
  destruct (split_at fence s) as [[p r]|]; [|reflexivity].
  rewrite (split_at_fence_app _ Hb).
  now destruct (split_at fence r) as [[i r']|].
Qed.

Lemma fenced_interior_trim (s : js_string) :
  fenced_interior (trim s) = fenced_interior s.
Proof.
  destruct (trim_decomp s) as [w1 [w2 [Hs [H1 H2]]]].
  rewrite Hs at 2. symmetry. now apply fenced_interior_plain.
Qed.

Lemma scanned_braces_plain (a s b : js_string) :
  plain a -> plain b ->
  brace_span (scanned (a ++ s ++ b)) = brace_span (scanned s).
Proof.
  intros Ha Hb. unfold scanned.
  rewrite !fenced_interior_trim, (fenced_interior_plain _ Ha Hb).
  destruct (fenced_interior s); [reflexivity|].
  rewrite !brace_span_trim. now apply brace_span_plain.
Qed.

Section MoreSniffer.

Context {E : Engine}.

(** X1.  Prose without back quote and brace before and after a text does
    not change what [tryParsePubMed] answers. *)
Theorem surrounding_prose_ignored (pre s post : js_string) :
  plain pre -> plain post ->
  tryParsePubMed (VStr (pre ++ s ++ post)) = tryParsePubMed (VStr s).
Proof.
  intros Ha Hb. rewrite !tryParsePubMed_refines. unfold tryParsePubMed_spec.
  now rewrite scanned_braces_plain.
Qed.

End MoreSniffer.

(** ** What makes the views throw *)

Section MoreViews.

Context {E : Engine}.

Lemma nullish_dec (l : list value) :
  Forall (fun m => nullish m = false) l \/ Exists (fun m => nullish m = true) l.
Proof.
  induction l as [|x l [IH|IH]].
  - left. constructor.
  - destruct (nullish x) eqn:Hx.
    + right. now constructor.
    + left. now constructor.
  - right. now constructor 2.
Qed.

(** [map_c] succeeds when the callback does on every element. *)
Lemma map_c_all {A} (f : value -> nat -> completion A) (l : list value) :
  Forall (fun x => forall i, exists y, f x i = Normal y) l ->
  forall i0, exists ys, map_c f i0 l = Normal ys /\ length ys = length l.
Proof.
  induction 1 as [|x l Hx _ IH]; intros i0.
  - now exists [].
  - cbn [map_c]. destruct (Hx i0) as [y ->]. destruct (IH (S i0)) as [ys [-> Hl]].
    exists (y :: ys). split; [reflexivity|]. simpl. now rewrite Hl.
Qed.

(** [map_c] throws when the callback does on some element. *)
Lemma map_c_some_throw {A} (f : value -> nat -> completion A) (l : list value) :
  Exists (fun x => forall i, exists e, f x i = Throw e) l ->
  forall i0, exists e, map_c f i0 l = Throw e.
Proof.
  induction 1 as [x l Hx|x l _ IH]; intros i0; cbn [map_c].
  - destruct (Hx i0) as [e ->]. now exists e.
  - destruct (f x i0) as [y|e]; [|now exists e].
    destruct (IH (S i0)) as [e ->]. now exists e.
Qed.

(** What [tryParsePubMed] returns is [null] or a value with a [results]
    array. *)
Lemma tryParsePubMed_result (content : value) :
  exists result,
    tryParsePubMed content = Normal result /\
    (result = VNull \/ exists items, member result (js "results") = VArr items).
Proof.
  destruct content as [| | | |text| |];
    try (exists VNull; split; [reflexivity|now left]).
  exists (tryParsePubMed_spec text). split; [apply tryParsePubMed_refines|].
  destruct (tryParsePubMed_spec text) eqn:Hs; try (now left); right;
    (destruct (spec_accepts text Hs) as [_ [entries [_ [_ Hm]]]];
     [discriminate|now exists entries]).
Qed.

Lemma MessageContent_plain (content role : value) :
  tryParsePubMed content = Normal VNull ->
  MessageContent content role =
  Normal (Elem (js "div") [className "message-text"] [Expr content]).
Proof. intros H. unfold MessageContent. now rewrite H. Qed.

Lemma MessageContent_payload (content role result : value)
  (items : list value) :
  tryParsePubMed content = Normal result ->
  member result (js "results") = VArr items ->
  MessageContent content role =
  cs <- map_c card 0 items ;;
  Normal (result_set (member result (js "total_results"))
                     (member result (js "query")) cs).
Proof.
  intros H Hm. unfold MessageContent. rewrite H. cbn [bind].
  destruct result; try discriminate Hm.
  cbn [truthy]. unfold get. cbn [nullish bind]. now rewrite Hm.
Qed.

(** X2.  [MessageContent] throws exactly when the text holds an accepted
    payload one of whose [results] has no card: an entry that is [null]
    or [undefined], or whose [pmid] has no string.  What it throws is
    decided by the first such entry: the type error of reading [url] of
    [null], or the type error of the conversion. *)
Theorem MessageContent_throws_iff (content role : value) :
  ((exists e, MessageContent content role = Throw e) <->
   (exists payload items,
      tryParsePubMed content = Normal payload /\
      member payload (js "results") = VArr items /\
      Exists (fun r => has_card r = false) items)) /\
  (forall payload before r after,
     tryParsePubMed content = Normal payload ->
     member payload (js "results") = VArr (before ++ r :: after) ->
     Forall (fun x => has_card x = true) before ->
     has_card r = false ->
     MessageContent content role
     = Throw (type_error (if nullish r then NullishRead (js "url")
                          else NoPrimitive))).
Proof.
  destruct (tryParsePubMed_result content) as [result [Hr Hcase]].
  assert (Hthrow : forall before r after,
            member result (js "results") = VArr (before ++ r :: after) ->
            Forall (fun x => has_card x = true) before ->
            has_card r = false ->
            MessageContent content role
            = Throw (type_error (if nullish r then NullishRead (js "url")
                                 else NoPrimitive))).
  { intros before r after Hm Hb Hbad.
    rewrite (MessageContent_payload content role Hr Hm).
    rewrite (@map_c_first_throw _ _ card before after r
               (type_error (if nullish r then NullishRead (js "url")
                            else NoPrimitive))).
    - reflexivity.
    - eapply Forall_impl; [|exact Hb]. intros x Hx i.
      destruct (card_value x i Hx) as [key ->]. now eexists.
    - intros i. now apply card_without. }
  split; [split|].
  - intros [e He]. destruct Hcase as [-> | [items Hm]].
    + rewrite (MessageContent_plain content role Hr) in He. discriminate.
    + exists result, items. split; [exact Hr|]. split; [exact Hm|].
      destruct (first_without_card items)
        as [Hall|[before [r [after [-> [Hb Hbad]]]]]].
      * rewrite (MessageContent_payload content role Hr Hm) in He.
        destruct (cards_made Hall 0) as [cs Hcs]. rewrite Hcs in He.
        discriminate.
      * apply Exists_app. right. now constructor.
  - intros [payload [items [Hp [Hm Hex]]]].
    assert (payload = result) by congruence. subst payload.
    destruct (first_without_card items)
      as [Hall|[before [r [after [-> [Hb Hbad]]]]]].
    + rewrite Forall_forall in Hall. apply Exists_exists in Hex.
      destruct Hex as [x [Hin Hx]]. rewrite (Hall x Hin) in Hx. discriminate.
    + eexists. exact (Hthrow before r after Hm Hb Hbad).
  - intros payload before r after Hp Hm Hb Hbad.
    assert (payload = result) by congruence. subst payload.
    exact (Hthrow before r after Hm Hb Hbad).
Qed.

(** *** The list of messages *)

Lemma Part000_row_renders (m : value) (i : nat) :
  nullish m = false -> exists r, Part000UI.row m i = Normal r.
Proof. intros H. unfold Part000UI.row, get. rewrite H. now eexists. Qed.

Lemma Part000_row_throws (m : value) (i : nat) :
  nullish m = true ->
  Part000UI.row m i = Throw (type_error (NullishRead (js "role"))).
Proof. intros H. unfold Part000UI.row, get. now rewrite H. Qed.

Lemma App_row_throws (m : value) (i : nat) :
  nullish m = true ->
  AppUI.row m i = Throw (type_error (NullishRead (js "role"))).
Proof. intros H. unfold AppUI.row, get. now rewrite H. Qed.

(** X3.  The list of the older client renders unless one of its entries is
    [null] or [undefined]; then it throws, and so does the list of
    [App.jsx]. *)
Theorem null_entry_breaks_the_list (l : list value) :
  ((exists e, Part000UI.rows (VArr l) = Throw e) <->
   Exists (fun m => nullish m = true) l) /\
  (Forall (fun m => nullish m = false) l ->
   exists rs, Part000UI.rows (VArr l) = Normal rs /\ length rs = length l) /\
  (Exists (fun m => nullish m = true) l ->
   exists e, AppUI.rows (VArr l) = Throw e).
Proof.
  assert (Hfine : Forall (fun m => nullish m = false) l ->
                  exists rs, Part000UI.rows (VArr l) = Normal rs
                             /\ length rs = length l).
  { intros Hall. apply map_c_all.
    eapply Forall_impl; [|exact Hall]. intros m Hm i.
    now apply Part000_row_renders. }
  split; [split|split].
  - intros [e He]. destruct (nullish_dec l) as [Hall|Hex]; [|exact Hex].
    destruct (Hfine Hall) as [rs [Hrs _]]. congruence.
  - intros Hex. apply map_c_some_throw.
    eapply Exists_impl; [|exact Hex]. intros m Hm i.
    eexists. now apply Part000_row_throws.
  - exact Hfine.
  - intros Hex. apply map_c_some_throw.
    eapply Exists_impl; [|exact Hex]. intros m Hm i.
    eexists. now apply App_row_throws.
Qed.

(** X4.  A list of messages with string roles whose contents hold no
    payload renders in [App.jsx], one row per message, each row with the
    avatar [AI] for the role [assistant] and [You] for any other. *)
Theorem plain_messages_render (l : list value) :
  Forall (fun m => nullish m = false /\
                   (exists s, member m (js "role") = VStr s) /\
                   tryParsePubMed (member m (js "content")) = Normal VNull) l ->
  exists rs,
    AppUI.rows (VArr l) = Normal rs /\
    length rs = length l /\
    forall i m, nth_error l i = Some m ->
      exists s attrs,
        member m (js "role") = VStr s /\
        nth_error rs i =
        Some (Elem (js "div") attrs
                [Elem (js "div") [className "message-avatar"]
                   [Expr (VStr (if str_eqb s (js "assistant")
                                then js "AI" else js "You"))];
                 Elem (js "div") [className "message-body"]
                   [Elem (js "div") [className "message-content"]
                      [Elem (js "div") [className "message-text"]
                         [Expr (member m (js "content"))]]]]).
Proof.
  intros Hall.
  assert (Hrow : forall m i,
            nullish m = false ->
            forall s, member m (js "role") = VStr s ->
            tryParsePubMed (member m (js "content")) = Normal VNull ->
            AppUI.row m i =
            Normal (Elem (js "div")
                      [(js "key", VStr (number_to_string (number_of_nat i)));
                       (js "className", VStr (js "message " ++ s))]
                      [Elem (js "div") [className "message-avatar"]
                         [Expr (VStr (if str_eqb s (js "assistant")
                                      then js "AI" else js "You"))];
                       Elem (js "div") [className "message-body"]
                         [Elem (js "div") [className "message-content"]
                            [Elem (js "div") [className "message-text"]
                               [Expr (member m (js "content"))]]]])).
  { intros m i Hn s Hs Hc. unfold AppUI.row, get. rewrite Hn. cbn [bind].
    rewrite Hs. cbn [to_string bind is_literal].
    rewrite (MessageContent_plain _ _ Hc). reflexivity. }
  destruct (@map_c_all _ AppUI.row l) with (i0 := 0) as [rs [Hrs Hlen]].
  { eapply Forall_impl; [|exact Hall]. intros m [Hn [[s Hs] Hc]] i.
    rewrite (Hrow m i Hn s Hs Hc). now eexists. }
  exists rs. split; [exact Hrs|]. split; [exact Hlen|].
  intros i m Hm. destruct (@map_c_nth _ _ AppUI.row l 0 rs Hrs) as [_ Hnth].
  destruct (Hnth i m Hm) as [r [Hr Hri]].
  rewrite Forall_forall in Hall.
  destruct (Hall m (nth_error_In _ _ Hm)) as [Hn [[s Hs] Hc]].
  rewrite (Hrow m (0 + i) Hn s Hs Hc) in Hri. injection Hri as <-.
  exists s. eexists. split; [exact Hs|exact Hr].
Qed.

End MoreViews.

(** ** More on [send] *)

Section MoreController.

Context {E : Engine}.

Lemma App_text_of_input (st : state) (userText : value) :
  (forall s, userText <> VStr s) ->
  App.effective_text st userText = trim (input st).
Proof.
  intros H. unfold App.effective_text.
  destruct userText; try apply trim_idempotent. now destruct (H s).
Qed.

(** How the [try] block ends: it throws with the view state untouched, or
    the response was a success with a JSON body other than [null] and the
    list is replaced. *)
Lemma reconcile_outcome (next : value) (o : fetch_outcome) (st1 : state) :
  (exists e, reconcile next o st1 = (st1, Throw e)) \/
  (exists resp data,
     o = Responded resp /\ ok resp = true /\
     JSON_parse (body_text resp) = Normal data /\ nullish data = false /\
     reconcile next o st1
     = (mk_state (or_value (member data (js "messages")) next)
                 (input st1) (loading st1) (error st1), Normal tt)).
Proof.
  destruct o as [e|resp]; [left; now exists e|].
  destruct (ok resp) eqn:Hok.
  - destruct (JSON_parse (body_text resp)) as [data|e] eqn:Hp.
    + rewrite (reconcile_success next resp st1 Hok Hp).
      destruct (nullish data) eqn:Hn; [left; now eexists|].
      right. now exists resp, data.
    + left. exists e. now apply reconcile_unparsed.
  - left. destruct (reconcile_failure next resp st1 Hok) as [e [He _]].
    now exists e.
Qed.

Lemma App_resumed (l : list value) (t : js_string) (o : fetch_outcome) :
  let next := VArr (l ++ [user_message t]) in
  (exists e,
     reconcile next o (waiting l t) = (waiting l t, Throw e) /\
     finally (try_catch_a (reconcile next o) App.handler) App.cleanup (waiting l t)
     = (mk_state (VArr l) [] false (error_text e), Normal tt)) \/
  (exists resp data,
     o = Responded resp /\ ok resp = true /\
     JSON_parse (body_text resp) = Normal data /\ nullish data = false /\
     finally (try_catch_a (reconcile next o) App.handler) App.cleanup (waiting l t)
     = (mk_state (or_value (member data (js "messages")) next) [] false [],
        Normal tt)).
Proof.
  intros next. destruct (reconcile_outcome next o (waiting l t))
    as [[e He]|[resp [data [Ho [Hok [Hp [Hn Hr]]]]]]].
  - left. exists e. split; [exact He|]. now apply App_caught.
  - right. exists resp, data. repeat (split; [assumption|]).
    unfold App.cleanup. now rewrite (@returned _ _ _ _ _ Hr).
Qed.

Lemma Part000_resumed (l : list value) (t : js_string) (o : fetch_outcome) :
  let next := VArr (l ++ [user_message t]) in
  (exists e,
     reconcile next o (waiting l t) = (waiting l t, Throw e) /\
     finally (try_catch_a (reconcile next o) Part000.handler) Part000.cleanup
       (waiting l t)
     = (mk_state next [] false (error_text e), Normal tt)) \/
  (exists resp data,
     o = Responded resp /\ ok resp = true /\
     JSON_parse (body_text resp) = Normal data /\ nullish data = false /\
     finally (try_catch_a (reconcile next o) Part000.handler) Part000.cleanup
       (waiting l t)
     = (mk_state (or_value (member data (js "messages")) next) [] false [],
        Normal tt)).
Proof.
  intros next. destruct (reconcile_outcome next o (waiting l t))
    as [[e He]|[resp [data [Ho [Hok [Hp [Hn Hr]]]]]]].
  - left. exists e. split; [exact He|]. now apply Part000_caught.
  - right. exists resp, data. repeat (split; [assumption|]).
    unfold Part000.cleanup. now rewrite (@returned _ _ _ _ _ Hr).
Qed.

Lemma settle_awaiting (net : request -> fetch_outcome) (st : state)
  (req : request) (resume : fetch_outcome -> action state unit) :
  settle net (Awaiting st req resume) = (resume (net req) st, [req]).
Proof. reflexivity. Qed.

(** X5.  Whatever the network does, a call of [send] that goes out ends
    with the promise fulfilled, the in-flight flag cleared and the input
    field empty, in both clients. *)
Theorem send_settles_clean (st st' : state) (userText : value)
  (l l' : list value) (net : request -> fetch_outcome) :
  conversation st l -> loading st = false ->
  App.effective_text st userText <> [] ->
  conversation st' l' -> loading st' = false ->
  Part000.effective_text st' <> [] ->
  (settlement net (App.send st userText) = Normal tt /\
   loading (final_state net (App.send st userText)) = false /\
   input (final_state net (App.send st userText)) = []) /\
  (settlement net (Part000.send st') = Normal tt /\
   loading (final_state net (Part000.send st')) = false /\
   input (final_state net (Part000.send st')) = []).
Proof.
  intros Hc Hl Ht Hc' Hl' Ht'.
  rewrite (App_send_awaits userText Hc Hl Ht), (Part000_send_awaits Hc' Hl' Ht').
  unfold settlement, final_state. rewrite !settle_awaiting. split.
  - destruct (App_resumed l (App.effective_text st userText)
                (net (outbound l (App.effective_text st userText))))
      as [[e [_ ->]]|[resp [data [_ [_ [_ [_ ->]]]]]]]; now repeat split.
  - destruct (Part000_resumed l' (Part000.effective_text st')
                (net (outbound l' (Part000.effective_text st'))))
      as [[e [_ ->]]|[resp [data [_ [_ [_ [_ ->]]]]]]]; now repeat split.
Qed.

(** X6.  When [fetch] itself rejects, the text of the rejection becomes the
    error string; [App.jsx] shows the list from before the call, the
    older client keeps the user message. *)
Theorem network_failure (st st' : state) (userText : value)
  (l l' : list value) (net : request -> fetch_outcome) (e : js_error) :
  conversation st l -> loading st = false ->
  App.effective_text st userText <> [] ->
  conversation st' l' -> loading st' = false ->
  Part000.effective_text st' <> [] ->
  (forall req, net req = Rejected e) ->
  final_state net (App.send st userText)
  = mk_state (messages st) [] false (error_text e) /\
  final_state net (Part000.send st')
  = mk_state (VArr (l' ++ [user_message (Part000.effective_text st')]))
             [] false (error_text e).
Proof.
  intros Hc Hl Ht Hc' Hl' Ht' Hnet.
  rewrite (App_send_awaits userText Hc Hl Ht), (Part000_send_awaits Hc' Hl' Ht').
  rewrite !final_state_awaiting, !Hnet.
  rewrite (@App_caught _ _ l _ e eq_refl), (@Part000_caught _ _ l' _ e eq_refl).
  destruct Hc as [-> _]. now split.
Qed.

(** X7.  A call of [send] leaves a list the view can render, when the
    network serves one: the view state holds a conversation again. *)
Theorem send_keeps_conversation (st st' : state) (userText : value)
  (l l' : list value) (net : request -> fetch_outcome) :
  conversation st l -> loading st = false ->
  App.effective_text st userText <> [] ->
  conversation st' l' -> loading st' = false ->
  Part000.effective_text st' <> [] ->
  (forall req, well_served (net req)) ->
  (exists l2, conversation (final_state net (App.send st userText)) l2) /\
  (exists l2, conversation (final_state net (Part000.send st')) l2).
Proof.
  intros Hc Hl Ht Hc' Hl' Ht' Hnet.
  assert (Hserved : forall (o : fetch_outcome) resp data next,
            well_served o -> o = Responded resp -> ok resp = true ->
            JSON_parse (body_text resp) = Normal data -> nullish data = false ->
            Forall (fun m => nullish m = false) next ->
            exists l2, or_value (member data (js "messages")) (VArr next) = VArr l2
                       /\ Forall (fun m => nullish m = false) l2).
  { intros o resp data next Hw -> Hok Hp Hn Hnext. unfold or_value.
    destruct (truthy (member data (js "messages"))) eqn:Htr.
    - destruct (Hw Hok data Hp Hn Htr) as [served [-> Hs]]. now exists served.
    - now exists next. }
  rewrite (App_send_awaits userText Hc Hl Ht), (Part000_send_awaits Hc' Hl' Ht').
  rewrite !final_state_awaiting. split.
  - destruct (App_resumed l (App.effective_text st userText)
                (net (outbound l (App.effective_text st userText))))
      as [[e [_ ->]]|[resp [data [Ho [Hok [Hp [Hn ->]]]]]]].
    + exists l. split; [reflexivity|apply Hc].
    + destruct (Hserved _ resp data _ (Hnet _) Ho Hok Hp Hn
                  (next_messages_entries (App.effective_text st userText)
                     (proj2 Hc))) as [l2 [Hl2 Hall]].
      exists l2. split; [exact Hl2|exact Hall].
  - destruct (Part000_resumed l' (Part000.effective_text st')
                (net (outbound l' (Part000.effective_text st'))))
      as [[e [_ ->]]|[resp [data [Ho [Hok [Hp [Hn ->]]]]]]].
    + eexists. split; [reflexivity|].
      apply next_messages_entries, Hc'.
    + destruct (Hserved _ resp data _ (Hnet _) Ho Hok Hp Hn
                  (next_messages_entries (Part000.effective_text st')
                     (proj2 Hc'))) as [l2 [Hl2 Hall]].
      exists l2. split; [exact Hl2|exact Hall].
Qed.

End MoreController.

(** ** The handlers that call [send] *)

Section MoreHandlers.

Context {E : Engine}.

(** X8.  The text [send] of [App.jsx] works with is its string argument
    trimmed, and without a string argument the trimmed input, which is
    the text of the older client: the second trim changes nothing. *)
Theorem effective_text_of_send (st : state) (userText : value) :
  App.effective_text st userText
  = match userText with
    | VStr s => trim s
    | _ => Part000.effective_text st
    end.
Proof.
  unfold App.effective_text, Part000.effective_text.
  destruct userText; try apply trim_idempotent. reflexivity.
Qed.

Lemma canSend_true (st : state) :
  canSend st = true <-> trim (input st) <> [] /\ loading st = false.
Proof.
  unfold canSend. destruct (trim (input st)) as [|c t]; simpl.
  - split; [discriminate|]. intros [H _]. congruence.
  - destruct (loading st); simpl; split; intros H;
      try discriminate H; try (destruct H; discriminate);
      try reflexivity.
    split; [discriminate|reflexivity].
Qed.

Lemma canSend_false (st : state) :
  canSend st = false -> trim (input st) = [] \/ loading st = true.
Proof.
  unfold canSend. destruct (trim (input st)) as [|c t]; simpl; [now left|].
  destruct (loading st); [now right|discriminate].
Qed.

Lemma App_guarded (st : state) (userText : value) :
  App.effective_text st userText = [] \/ loading st = true ->
  App.send st userText = Settled st (Normal tt).
Proof.
  intros H. unfold App.send. destruct H as [-> | ->]; [reflexivity|].
  now destruct (App.effective_text st userText).
Qed.

Lemma Part000_guarded (st : state) :
  Part000.effective_text st = [] \/ loading st = true ->
  Part000.send st = Settled st (Normal tt).
Proof.
  intros H. unfold Part000.send. destruct H as [-> | ->]; [reflexivity|].
  now destruct (Part000.effective_text st).
Qed.

Lemma App_button (st : state) (l : list value) :
  conversation st l ->
  (canSend st = true ->
   exists resume,
     App.send st VUndefined
     = Awaiting (waiting l (trim (input st))) (outbound l (trim (input st)))
         resume) /\
  (canSend st = false -> App.send st VUndefined = Settled st (Normal tt)).
Proof.
  intros Hc.
  assert (Ht : App.effective_text st VUndefined = trim (input st))
    by (apply App_text_of_input; discriminate).
  split.
  - intros Hs. apply canSend_true in Hs. destruct Hs as [Hne Hl].
    rewrite <- Ht in Hne. rewrite (App_send_awaits VUndefined Hc Hl Hne), Ht.
    now eexists.
  - intros Hs. apply App_guarded. rewrite Ht. now apply canSend_false.
Qed.

Lemma Part000_button (st : state) (l : list value) :
  conversation st l ->
  (canSend st = true ->
   exists resume,
     Part000.send st
     = Awaiting (waiting l (trim (input st))) (outbound l (trim (input st)))
         resume) /\
  (canSend st = false -> Part000.send st = Settled st (Normal tt)).
Proof.
  intros Hc. split.
  - intros Hs. apply canSend_true in Hs. destruct Hs as [Hne Hl].
    rewrite (Part000_send_awaits Hc Hl Hne). now eexists.
  - intros Hs. apply Part000_guarded. now apply canSend_false.
Qed.

(** X9.  The send button is enabled exactly when [send] would go out:
    with [canSend] the call makes its request for the trimmed input, and
    without it the call changes nothing, in both clients. *)
Theorem canSend_is_the_guard (st : state) (l : list value)
  (net : request -> fetch_outcome) :
  conversation st l ->
  requests net (AppUI.button_click st)
  = (if canSend st then [outbound l (trim (input st))] else []) /\
  requests net (Part000.send st)
  = (if canSend st then [outbound l (trim (input st))] else []) /\
  (canSend st = false ->
   final_state net (AppUI.button_click st) = st /\
   final_state net (Part000.send st) = st).
Proof.
  intros Hc. unfold AppUI.button_click.
  destruct (App_button Hc) as [Ha Ha'], (Part000_button Hc) as [Hp Hp'].
  destruct (canSend st).
  - destruct (Ha eq_refl) as [r ->], (Hp eq_refl) as [r' ->].
    repeat split; discriminate.
  - rewrite (Ha' eq_refl), (Hp' eq_refl). now repeat split.
Qed.

(** X10.  A key press makes a request exactly when the key is Enter, Shift
    is not held and [canSend] holds; it prevents the default action of the
    key exactly when the key is Enter without Shift; and a key press
    without request changes nothing. *)
Theorem key_press (st : state) (l : list value) (e : key_event)
  (net : request -> fetch_outcome) :
  conversation st l ->
  (fst (AppUI.onKeyDown st e) = submits e /\
   key_requests net (AppUI.onKeyDown st e)
   = (if submits e && canSend st then [outbound l (trim (input st))] else []) /\
   (submits e && canSend st = false ->
    key_state net st (AppUI.onKeyDown st e) = st)) /\
  (fst (Part000UI.onKeyDown st e) = submits e /\
   key_requests net (Part000UI.onKeyDown st e)
   = (if submits e && canSend st then [outbound l (trim (input st))] else []) /\
   (submits e && canSend st = false ->
    key_state net st (Part000UI.onKeyDown st e) = st)).
Proof.
  intros Hc. unfold AppUI.onKeyDown, Part000UI.onKeyDown, key_requests, key_state.
  destruct (App_button Hc) as [Ha Ha'], (Part000_button Hc) as [Hp Hp'].
  destruct (submits e); cbn [fst snd andb]; [|now repeat split].
  destruct (canSend st).
  - destruct (Ha eq_refl) as [r ->], (Hp eq_refl) as [r' ->].
    repeat split; discriminate.
  - rewrite (Ha' eq_refl), (Hp' eq_refl). now repeat split.
Qed.

Lemma suggestion_text (s : js_string) :
  In s AppUI.SUGGESTIONS -> trim s = s /\ s <> [].
Proof.
  intros H. repeat (destruct H as [<- | H]; [split; [reflexivity|discriminate]|]).
  destruct H.
Qed.

(** X11.  On the welcome screen of an empty list a suggestion chip sends
    its own text as the first message, whatever is in the input field:
    one request with that one user message, which is also what the list
    shows meanwhile. *)
Theorem suggestion_chip (st : state) (s : js_string)
  (net : request -> fetch_outcome) :
  In s AppUI.SUGGESTIONS ->
  isArray (messages st) = true ->
  showWelcome st = Normal true ->
  exists st1 req resume,
    AppUI.chip_click st s = Awaiting st1 req resume /\
    requests net (AppUI.chip_click st s) = [req] /\
    body req = VObj [(js "messages", VArr [user_message s])] /\
    messages st1 = VArr [user_message s] /\
    input st1 = [] /\ loading st1 = true.
Proof.
  intros Hs Ha Hw. destruct (suggestion_text Hs) as [Htrim Hne].
  assert (Hst : loading st = false /\ spread (messages st) = Normal []).
  { unfold showWelcome in Hw. destruct (messages st) as [| | | |t|items|];
      try discriminate Ha. injection Hw as Hw.
    apply andb_prop in Hw. destruct Hw as [Hlen Hload].
    apply Nat.eqb_eq in Hlen. apply negb_true_iff in Hload.
    destruct items; [now split|discriminate]. }
  destruct Hst as [Hload Hspread].
  unfold AppUI.chip_click, App.send, App.effective_text. rewrite Htrim.
  destruct s as [|c s]; [congruence|]. rewrite Hload. cbn [orb].
  unfold bind_a, setError, setLoading, setMessages, setInput, lift, ret.
  cbn [messages input loading error]. rewrite Hspread. cbn [app].
  do 3 eexists. split; [reflexivity|]. repeat split.
Qed.

(** X12.  Typing the same text again after a failure response, [App.jsx]
    makes the request it made before; the older client sends the failed
    user message twice. *)
Theorem retry_after_failure (st : state) (l : list value)
  (net net' : request -> fetch_outcome) (resp : response) :
  conversation st l -> loading st = false ->
  trim (input st) <> [] ->
  (forall req, net req = Responded resp) ->
  ok resp = false ->
  let t := trim (input st) in
  requests net (App.send st VUndefined) = [outbound l t] /\
  requests net'
    (App.send (typed (input st) (final_state net (App.send st VUndefined)))
       VUndefined)
  = [outbound l t] /\
  requests net'
    (Part000.send (typed (input st) (final_state net (Part000.send st))))
  = [outbound (l ++ [user_message t]) t] /\
  filter has_chat_role ((l ++ [user_message t]) ++ [user_message t])
  = filter has_chat_role l ++ [user_message t; user_message t].
Proof.
  intros Hc Hl Ht Hnet Hok t.
  assert (Hta : App.effective_text st VUndefined = t)
    by (apply App_text_of_input; discriminate).
  assert (Hta' : App.effective_text st VUndefined <> []) by now rewrite Hta.
  split; [|split; [|split]].
  - now rewrite (App_send_awaits VUndefined Hc Hl Hta'), Hta.
  - rewrite (App_send_awaits VUndefined Hc Hl Hta'), final_state_awaiting, Hnet.
    destruct (reconcile_failure
                (VArr (l ++ [user_message (App.effective_text st VUndefined)]))
                resp (waiting l (App.effective_text st VUndefined)) Hok)
      as [e [He _]].
    rewrite (App_caught _ He). cbn [fst]. unfold typed, setInput. cbn [fst messages loading error].
    destruct (@App_button
                (mk_state (VArr l) (input st) false (error_text e)) l) as [Hb _].
    { split; [reflexivity|apply Hc]. }
    destruct Hb as [r ->]; [now apply canSend_true|]. reflexivity.
  - rewrite (Part000_send_awaits Hc Hl Ht), final_state_awaiting, Hnet.
    destruct (reconcile_failure
                (VArr (l ++ [user_message (Part000.effective_text st)]))
                resp (waiting l (Part000.effective_text st)) Hok)
      as [e [He _]].
    rewrite (Part000_caught _ He). cbn [fst]. unfold typed, setInput. cbn [fst messages loading error].
    destruct (@Part000_button
                (mk_state (VArr (l ++ [user_message (Part000.effective_text st)]))
                   (input st) false (error_text e))
                (l ++ [user_message t])) as [Hb _].
    { split; [reflexivity|]. apply next_messages_entries, Hc. }
    destruct Hb as [r ->]; [now apply canSend_true|]. reflexivity.
  - rewrite !filter_app. cbn [filter]. rewrite <- app_assoc. reflexivity.
Qed.

(** X13.  The first request of [App.jsx] carries the user message alone;
    the first request of the older client carries its own greeting before
    the user message. *)
Theorem first_request (t : js_string) (net : request -> fetch_outcome) :
  trim t <> [] ->
  (exists req,
     requests net (App.send (typed t AppUI.initial) VUndefined) = [req] /\
     body req = VObj [(js "messages", VArr [user_message (trim t)])]) /\
  (exists req greeting,
     requests net (Part000.send (typed t Part000UI.initial)) = [req] /\
     messages Part000UI.initial = VArr [greeting] /\
     body req = VObj [(js "messages", VArr [greeting; user_message (trim t)])]).
Proof.
  intros Ht. split.
  - destruct (@App_button (typed t AppUI.initial) []) as [Hb _].
    { split; [reflexivity|constructor]. }
    destruct Hb as [r ->]; [now apply canSend_true|].
    eexists. split; reflexivity.
  - destruct (@Part000_button (typed t Part000UI.initial)
                [VObj [(js "role", VStr (js "assistant"));
                       (js "content",
                        VStr (js "Hi! Ask me anything. If you ask for PubMed results, I will return JSON."))]])
      as [Hb _].
    { split; [reflexivity|repeat constructor]. }
    destruct Hb as [r ->]; [now apply canSend_true|].
    do 2 eexists. split; [reflexivity|]. split; reflexivity.
Qed.

End MoreHandlers.

(** ** What [send] and the view do outside a conversation *)

Section MoreEdges.

Context {E : Engine}.

Lemma drop_space_blank (s : js_string) : drop_space s = [] <-> blank s.
Proof.
  unfold blank. induction s as [|c s IH]; simpl.
  - split; [constructor|reflexivity].
  - destruct (is_space c) eqn:Hc.
    + rewrite IH. split; [now constructor|]. intros H. now inversion H.
    + split; [discriminate|]. intros H. inversion H. congruence.
Qed.

Lemma trim_blank (s : js_string) : trim s = [] <-> blank s.
Proof.
  unfold trim. split.
  - intros H. apply (f_equal (@rev N)) in H. rewrite rev_involutive in H.
    cbn [rev] in H. apply drop_space_blank in H.
    apply Forall_rev in H. rewrite rev_involutive in H.
    apply drop_space_blank. pose proof (drop_space_head s) as Hh.
    destruct (drop_space s) as [|x u]; [reflexivity|].
    inversion H. congruence.
  - intros H. apply drop_space_blank in H. now rewrite H.
Qed.

(** X14.  An input of white space alone is never sent: the send button is
    enabled exactly when the input has a character that is no white
    space and no request is in flight, and [send] leaves the state as it
    is for a blank input, as for a blank string argument. *)
Theorem blank_input_never_sent (st : state) (userText : value) :
  (canSend st = true <-> ~ blank (input st) /\ loading st = false) /\
  (blank (input st) ->
   Part000.send st = Settled st (Normal tt) /\
   ((forall s, userText <> VStr s) ->
    App.send st userText = Settled st (Normal tt))) /\
  (forall s, blank s -> App.send st (VStr s) = Settled st (Normal tt)).
Proof.
  split; [|split].
  - rewrite canSend_true, <- trim_blank. reflexivity.
  - intros Hb. apply trim_blank in Hb. split.
    + apply Part000_guarded. now left.
    + intros Hs. apply App_guarded. left.
      now rewrite (App_text_of_input st Hs).
  - intros s Hb. apply App_guarded. left. unfold App.effective_text.
    now apply trim_blank.
Qed.

Lemma filter_sendable_throws (l : list value) :
  Exists (fun m => nullish m = true) l ->
  filter_c sendable l = Throw (type_error (NullishRead (js "role"))).
Proof.
  induction l as [|x l IH]; intros H; [now inversion H|].
  cbn [filter_c]. destruct (nullish x) eqn:Hx.
  - unfold sendable, get. now rewrite Hx.
  - rewrite (sendable_role _ Hx). cbn [bind]. rewrite IH; [reflexivity|].
    inversion H; subst; [congruence|assumption].
Qed.

(** X15.  With a [null] or [undefined] entry in the list no request is
    made.  The call shows the message of the engine's TypeError for a
    read of [role]; [App.jsx] leaves the list as it was and the older
    client keeps the user message. *)
Theorem null_entry_blocks_send (st : state) (userText : value)
  (l : list value) (net : request -> fetch_outcome) :
  messages st = VArr l ->
  Exists (fun m => nullish m = true) l ->
  loading st = false ->
  App.effective_text st userText <> [] ->
  Part000.effective_text st <> [] ->
  let shown := error_text (type_error (NullishRead (js "role"))) in
  (requests net (App.send st userText) = [] /\
   final_state net (App.send st userText) = mk_state (VArr l) [] false shown) /\
  (requests net (Part000.send st) = [] /\
   final_state net (Part000.send st)
   = mk_state (VArr (l ++ [user_message (trim (input st))])) [] false shown).
Proof.
  intros Hm Hex Hl Ht Ht' shown.
  assert (Hf : forall t, chat_request (l ++ [user_message t])
                         = Throw (type_error (NullishRead (js "role")))).
  { intros t. unfold chat_request. rewrite filter_sendable_throws; [reflexivity|].
    apply Exists_app. now left. }
  split.
  - unfold App.send.
    destruct (App.effective_text st userText) as [|c t] eqn:Hte; [congruence|].
    rewrite Hl. cbn [orb].
    unfold bind_a, setError, setLoading, setMessages, setInput, lift, ret.
    cbn [messages input loading error]. rewrite Hm. cbn [spread]. rewrite Hf.
    unfold finally, App.handler, App.cleanup, bind_a, setError, updateMessages,
      setLoading.
    cbn [messages input loading error slice_0_m1]. rewrite removelast_last.
    now split.
  - unfold Part000.send, Part000.effective_text in *.
    destruct (trim (input st)) as [|c t] eqn:Hte; [congruence|].
    rewrite Hl. cbn [orb].
    unfold bind_a, setError, setLoading, setMessages, setInput, lift, ret.
    cbn [messages input loading error]. rewrite Hm. cbn [spread]. rewrite Hf.
    now split.
Qed.

Lemma App_stored (st : state) (userText : value) (l : list value)
  (net : request -> fetch_outcome) (resp : response) (data : value) :
  conversation st l -> loading st = false ->
  App.effective_text st userText <> [] ->
  (forall req, net req = Responded resp) ->
  ok resp = true -> JSON_parse (body_text resp) = Normal data ->
  nullish data = false ->
  final_state net (App.send st userText)
  = mk_state (or_value (member data (js "messages"))
                (VArr (l ++ [user_message (App.effective_text st userText)])))
      [] false [].
Proof.
  intros Hc Hl Ht Hnet Hok Hp Hn.
  rewrite (App_send_awaits userText Hc Hl Ht), final_state_awaiting, Hnet.
  destruct (App_resumed l (App.effective_text st userText) (Responded resp))
    as [[e [He _]]|[resp' [data' [Ho [_ [Hp' [_ ->]]]]]]].
  - rewrite (reconcile_success _ resp _ Hok Hp), Hn in He. discriminate.
  - injection Ho as <-. rewrite Hp in Hp'. now injection Hp' as <-.
Qed.

Lemma Part000_stored (st : state) (l : list value)
  (net : request -> fetch_outcome) (resp : response) (data : value) :
  conversation st l -> loading st = false ->
  Part000.effective_text st <> [] ->
  (forall req, net req = Responded resp) ->
  ok resp = true -> JSON_parse (body_text resp) = Normal data ->
  nullish data = false ->
  final_state net (Part000.send st)
  = mk_state (or_value (member data (js "messages"))
                (VArr (l ++ [user_message (Part000.effective_text st)])))
      [] false [].
Proof.
  intros Hc Hl Ht Hnet Hok Hp Hn.
  rewrite (Part000_send_awaits Hc Hl Ht), final_state_awaiting, Hnet.
  destruct (Part000_resumed l (Part000.effective_text st) (Responded resp))
    as [[e [He _]]|[resp' [data' [Ho [_ [Hp' [_ ->]]]]]]].
  - rewrite (reconcile_success _ resp _ Hok Hp), Hn in He. discriminate.
  - injection Ho as <-. rewrite Hp in Hp'. now injection Hp' as <-.
Qed.

Lemma rows_of_served (v : value) :
  truthy v = true ->
  isArray v = false \/
  (exists served, v = VArr served /\ Exists (fun m => nullish m = true) served) ->
  (exists e, AppUI.rows v = Throw e) /\ (exists e, Part000UI.rows v = Throw e).
Proof.
  intros Ht [Ha|[served [-> Hex]]].
  - destruct v; try discriminate; split; eexists; reflexivity.
  - split; apply map_c_some_throw; (eapply Exists_impl; [|exact Hex]);
      intros m Hm i; eexists.
    + now apply App_row_throws.
    + now apply Part000_row_throws.
Qed.

(** X16.  A success response whose [messages] is truthy and no list, or a
    list with a [null] entry, is stored as it is, and the next rendering
    of the message list throws, in both clients. *)
Theorem served_value_breaks_view (st : state) (userText : value)
  (l : list value) (net : request -> fetch_outcome) (resp : response)
  (data : value) :
  conversation st l -> loading st = false ->
  App.effective_text st userText <> [] ->
  Part000.effective_text st <> [] ->
  (forall req, net req = Responded resp) ->
  ok resp = true -> JSON_parse (body_text resp) = Normal data ->
  nullish data = false ->
  truthy (member data (js "messages")) = true ->
  isArray (member data (js "messages")) = false \/
  (exists served, member data (js "messages") = VArr served /\
                  Exists (fun m => nullish m = true) served) ->
  (messages (final_state net (App.send st userText)) = member data (js "messages") /\
   exists e, AppUI.rows (messages (final_state net (App.send st userText)))
             = Throw e) /\
  (messages (final_state net (Part000.send st)) = member data (js "messages") /\
   exists e, Part000UI.rows (messages (final_state net (Part000.send st)))
             = Throw e).
Proof.
  intros Hc Hl Ht Ht' Hnet Hok Hp Hn Htr Hbad.
  rewrite (@App_stored st userText l net resp data Hc Hl Ht Hnet Hok Hp Hn),
    (@Part000_stored st l net resp data Hc Hl Ht' Hnet Hok Hp Hn).
  unfold or_value. rewrite Htr. cbn [messages].
  destruct (rows_of_served Htr Hbad) as [Ha Hb]. now repeat split.
Qed.

Lemma new_Error_named (v : value) (e : js_error) :
  new_Error v = Normal e \/ new_Error v = Throw e -> err_name e <> [].
Proof.
  unfold new_Error. intros [H|H].
  - destruct v; try (injection H as <-; discriminate);
      match type of H with
      | bind ?t _ = _ => destruct t; cbn [bind] in H
      end; try discriminate H; injection H as <-; discriminate.
  - assert (Ht : to_string v = Throw e).
    { destruct v; try discriminate H;
        match type of H with
        | bind ?t _ = _ => destruct t; cbn [bind] in H
        end; try discriminate H; now injection H as <-. }
    rewrite (to_string_throw _ Ht). discriminate.
Qed.

Lemma reconcile_throw_named (next : value) (resp : response) (st st2 : state)
  (e : js_error) :
  reconcile next (Responded resp) st = (st2, Throw e) -> err_name e <> [].
Proof.
  unfold reconcile, bind_a, lift, raise, get.
  destruct (JSON_parse (body_text resp)) as [data|e0] eqn:Hp.
  - destruct (ok resp); cbn [negb].
    + destruct (nullish data); [|discriminate].
      intros H. injection H as _ <-. discriminate.
    + destruct (new_Error _) as [e1|e1] eqn:He; intros H; injection H as _ <-;
        eapply new_Error_named; eauto.
  - intros H. injection H as _ <-.
    rewrite (JSON_parse_throw _ Hp). discriminate.
Qed.

Lemma error_text_named (e : js_error) : err_name e <> [] -> error_text e <> [].
Proof.
  destruct e as [n m]. unfold error_text, error_toString. cbn [err_name err_message].
  destruct m; [|discriminate]. now destruct n.
Qed.

(** X17.  After a response the error string is empty exactly when the
    response was a success with a JSON body other than [null]: every
    other response leaves a text to show, in both clients. *)
Theorem error_empty_iff_success (st : state) (userText : value)
  (l : list value) (net : request -> fetch_outcome) (resp : response) :
  conversation st l -> loading st = false ->
  App.effective_text st userText <> [] ->
  Part000.effective_text st <> [] ->
  (forall req, net req = Responded resp) ->
  let success :=
    ok resp = true /\
    exists data, JSON_parse (body_text resp) = Normal data /\ nullish data = false in
  (error (final_state net (App.send st userText)) = [] <-> success) /\
  (error (final_state net (Part000.send st)) = [] <-> success).
Proof.
  intros Hc Hl Ht Ht' Hnet success.
  assert (Hthrown : forall next st1 e,
            reconcile next (Responded resp) st1 = (st1, Throw e) ->
            error_text e <> [] /\ ~ success).
  { intros next st1 e He. split.
    - eapply error_text_named, reconcile_throw_named, He.
    - intros [Hok [data [Hp Hn]]].
      rewrite (reconcile_success _ resp _ Hok Hp), Hn in He. discriminate. }
  rewrite (App_send_awaits userText Hc Hl Ht), (Part000_send_awaits Hc Hl Ht').
  rewrite !final_state_awaiting, !Hnet. split.
  - destruct (App_resumed l (App.effective_text st userText) (Responded resp))
      as [[e [He ->]]|[resp' [data [Ho [Hok [Hp [Hn ->]]]]]]]; cbn [fst error].
    + destruct (Hthrown _ _ _ He) as [H1 H2]. split; [congruence|contradiction].
    + injection Ho as <-. split; [|reflexivity]. intros _. split; [exact Hok|].
      now exists data.
  - destruct (Part000_resumed l (Part000.effective_text st) (Responded resp))
      as [[e [He ->]]|[resp' [data [Ho [Hok [Hp [Hn ->]]]]]]]; cbn [fst error].
    + destruct (Hthrown _ _ _ He) as [H1 H2]. split; [congruence|contradiction].
    + injection Ho as <-. split; [|reflexivity]. intros _. split; [exact Hok|].
      now exists data.
Qed.

(** X18.  The welcome screen of [App.jsx] shows for an empty list with no
    request in flight.  It is gone while the first message waits for its
    answer, and it is back when that call fails, with the text of the
    rejection as the error, or with a text that is not empty after a
    failure response. *)
Theorem welcome_screen (st : state) (userText : value)
  (net : request -> fetch_outcome) :
  conversation st [] -> loading st = false ->
  App.effective_text st userText <> [] ->
  (forall req, match net req with
               | Rejected _ => True
               | Responded resp => ok resp = false
               end) ->
  showWelcome st = Normal true /\
  (exists st1 req resume,
     App.send st userText = Awaiting st1 req resume /\
     showWelcome st1 = Normal false) /\
  showWelcome (final_state net (App.send st userText)) = Normal true /\
  match net (outbound [] (App.effective_text st userText)) with
  | Rejected e =>
      error (final_state net (App.send st userText)) = error_text e
  | Responded _ =>
      error (final_state net (App.send st userText)) <> []
  end.
Proof.
  intros Hc Hl Ht Hnet. split; [|split].
  - unfold showWelcome. destruct Hc as [-> _]. now rewrite Hl.
  - rewrite (App_send_awaits userText Hc Hl Ht). do 3 eexists.
    split; reflexivity.
  - rewrite (App_send_awaits userText Hc Hl Ht), final_state_awaiting.
    specialize (Hnet (outbound [] (App.effective_text st userText))).
    destruct (net (outbound [] (App.effective_text st userText)))
      as [e0|resp] eqn:Ho.
    + rewrite (@App_caught _ _ [] (App.effective_text st userText) e0 eq_refl).
      now split.
    + destruct (reconcile_failure
                  (VArr ([] ++ [user_message (App.effective_text st userText)]))
                  resp (waiting [] (App.effective_text st userText)) Hnet)
        as [e [He _]].
      rewrite (App_caught _ He). split; [reflexivity|].
      cbn [fst error].
      eapply error_text_named, reconcile_throw_named, He.
Qed.

End MoreEdges.

(* ================================================================= *)
(** * Concrete runs of the further properties *)

Lemma surrounding_prose_ignored_witness :
  plain (js "Found: ") /\ plain (js " (no hits)") /\
  tryParsePubMed (E := sample_engine)
    (VStr (js "Found: " ++ fenced_empty_results ++ js " (no hits)"))
  = tryParsePubMed (VStr fenced_empty_results).
Proof.
  assert (H1 : plain (js "Found: "))
    by (repeat constructor; discriminate).
  assert (H2 : plain (js " (no hits)"))
    by (repeat constructor; discriminate).
  split; [exact H1|]. split; [exact H2|].
  exact (@surrounding_prose_ignored sample_engine (js "Found: ")
           fenced_empty_results (js " (no hits)") H1 H2).
Defined.

Lemma small_talk_plain :
  Forall (fun m => nullish m = false /\
                   (exists s, member m (js "role") = VStr s) /\
                   tryParsePubMed (member m (js "content")) = Normal VNull)
    small_talk.
Proof.
  repeat constructor; try (eexists; reflexivity).
Qed.

Lemma plain_messages_render_witness :
  Forall (fun m => nullish m = false /\
                   (exists s, member m (js "role") = VStr s) /\
                   tryParsePubMed (member m (js "content")) = Normal VNull)
    small_talk /\
  exists rs, AppUI.rows (VArr small_talk) = Normal rs /\ length rs = 2.
Proof.
  split; [exact small_talk_plain|].
  destruct (@plain_messages_render sample_engine small_talk small_talk_plain)
    as [rs [Hrs [Hlen _]]].
  exists rs. split; [exact Hrs|exact Hlen].
Defined.

Lemma noted_text : App.effective_text noted_state VUndefined <> [].
Proof. vm_compute. discriminate. Qed.

Lemma noted_text' : Part000.effective_text noted_state <> [].
Proof. vm_compute. discriminate. Qed.

Lemma typing_text : Part000.effective_text typing_state <> [].
Proof. vm_compute. discriminate. Qed.

Lemma send_settles_clean_witness :
  conversation noted_state [greeting; system_note] /\
  loading noted_state = false /\
  App.effective_text noted_state VUndefined <> [] /\
  conversation typing_state [greeting] /\
  loading typing_state = false /\
  Part000.effective_text typing_state <> [] /\
  settlement (answers html_502) (App.send noted_state VUndefined) = Normal tt /\
  loading (final_state (answers html_502) (App.send noted_state VUndefined)) = false /\
  settlement (answers html_502) (Part000.send typing_state) = Normal tt /\
  loading (final_state (answers html_502) (Part000.send typing_state)) = false.
Proof.
  split; [exact noted_conversation|]. split; [reflexivity|].
  split; [exact noted_text|]. split; [exact typing_conversation|].
  split; [reflexivity|]. split; [exact typing_text|].
  destruct (@send_settles_clean sample_engine noted_state typing_state VUndefined
              _ _ (answers html_502)
              noted_conversation eq_refl noted_text
              typing_conversation eq_refl typing_text)
    as [[H1 [H2 _]] [H3 [H4 _]]].
  repeat split; assumption.
Defined.

Lemma network_failure_witness :
  conversation noted_state [greeting; system_note] /\
  loading noted_state = false /\
  App.effective_text noted_state VUndefined <> [] /\
  conversation typing_state [greeting] /\
  loading typing_state = false /\
  Part000.effective_text typing_state <> [] /\
  (forall req, offline req
               = Rejected (mk_error (js "TypeError") (js "Failed to fetch"))) /\
  final_state offline (App.send noted_state VUndefined)
  = mk_state (VArr [greeting; system_note]) [] false (js "Failed to fetch") /\
  final_state offline (Part000.send typing_state)
  = mk_state (VArr [greeting; user_message (js "aging and memory")]) [] false
      (js "Failed to fetch").
Proof.
  assert (Hnet : forall req, offline req
                 = Rejected (mk_error (js "TypeError") (js "Failed to fetch")))
    by reflexivity.
  split; [exact noted_conversation|]. split; [reflexivity|].
  split; [exact noted_text|]. split; [exact typing_conversation|].
  split; [reflexivity|]. split; [exact typing_text|]. split; [exact Hnet|].
  exact (@network_failure sample_engine noted_state typing_state VUndefined
           _ _ offline _
           noted_conversation eq_refl noted_text
           typing_conversation eq_refl typing_text Hnet).
Defined.

Lemma served_200_well_served :
  forall req, well_served (E := sample_engine) (answers served_200 req).
Proof.
  intros req Hok data Hp Hn Htr. vm_compute in Hp. injection Hp as <-.
  eexists. split; [reflexivity|]. repeat constructor.
Qed.

Lemma send_keeps_conversation_witness :
  conversation noted_state [greeting; system_note] /\
  loading noted_state = false /\
  App.effective_text noted_state VUndefined <> [] /\
  conversation typing_state [greeting] /\
  loading typing_state = false /\
  Part000.effective_text typing_state <> [] /\
  (forall req, well_served (E := sample_engine) (answers served_200 req)) /\
  (exists l2, conversation
                (final_state (answers served_200) (App.send noted_state VUndefined))
                l2) /\
  (exists l2, conversation
                (final_state (answers served_200) (Part000.send typing_state))
                l2).
Proof.
  split; [exact noted_conversation|]. split; [reflexivity|].
  split; [exact noted_text|]. split; [exact typing_conversation|].
  split; [reflexivity|]. split; [exact typing_text|].
  split; [exact served_200_well_served|].
  exact (@send_keeps_conversation sample_engine noted_state typing_state
           VUndefined _ _ (answers served_200)
           noted_conversation eq_refl noted_text
           typing_conversation eq_refl typing_text served_200_well_served).
Defined.

Lemma canSend_is_the_guard_witness :
  conversation typing_state [greeting] /\
  requests (answers served_200) (AppUI.button_click typing_state)
  = [outbound [greeting] (js "aging and memory")] /\
  requests (answers served_200) (Part000.send typing_state)
  = [outbound [greeting] (js "aging and memory")].
Proof.
  split; [exact typing_conversation|].
  destruct (@canSend_is_the_guard sample_engine typing_state [greeting]
              (answers served_200) typing_conversation) as [H1 [H2 _]].
  split; [exact H1|exact H2].
Defined.

Lemma key_press_witness :
  conversation typing_state [greeting] /\
  fst (AppUI.onKeyDown typing_state enter_key) = true /\
  key_requests (answers served_200) (AppUI.onKeyDown typing_state enter_key)
  = [outbound [greeting] (js "aging and memory")] /\
  key_requests (answers served_200) (Part000UI.onKeyDown typing_state enter_key)
  = [outbound [greeting] (js "aging and memory")].
Proof.
  split; [exact typing_conversation|].
  destruct (@key_press sample_engine typing_state [greeting] enter_key
              (answers served_200) typing_conversation)
    as [[H1 [H2 _]] [_ [H3 _]]].
  split; [exact H1|]. split; [exact H2|exact H3].
Defined.

Lemma suggestion_chip_witness :
  In (js "Papers about COVID-19 vaccine efficacy") AppUI.SUGGESTIONS /\
  isArray (messages (E := sample_engine) (typed (js "draft") AppUI.initial))
  = true /\
  showWelcome (E := sample_engine) (typed (js "draft") AppUI.initial)
  = Normal true /\
  exists req,
    requests offline
      (AppUI.chip_click (typed (js "draft") AppUI.initial)
         (js "Papers about COVID-19 vaccine efficacy"))
    = [req] /\
    body req
    = VObj [(js "messages",
             VArr [user_message (js "Papers about COVID-19 vaccine efficacy")])].
Proof.
  assert (H1 : In (js "Papers about COVID-19 vaccine efficacy") AppUI.SUGGESTIONS)
    by (do 3 right; left; reflexivity).
  assert (H2 : showWelcome (E := sample_engine) (typed (js "draft") AppUI.initial)
               = Normal true) by reflexivity.
  split; [exact H1|]. split; [reflexivity|]. split; [exact H2|].
  destruct (@suggestion_chip sample_engine (typed (js "draft") AppUI.initial)
              (js "Papers about COVID-19 vaccine efficacy") offline H1 eq_refl H2)
    as [st1 [req [resume [_ [Hr [Hb _]]]]]].
  exists req. split; [exact Hr|exact Hb].
Defined.

Lemma retry_after_failure_witness :
  conversation typing_state [greeting] /\
  loading typing_state = false /\
  trim (input typing_state) <> [] /\
  (forall req, answers boom_500 req = Responded boom_500) /\
  ok boom_500 = false /\
  requests (answers served_200)
    (App.send
       (typed (input typing_state)
          (final_state (answers boom_500) (App.send typing_state VUndefined)))
       VUndefined)
  = [outbound [greeting] (js "aging and memory")] /\
  requests (answers served_200)
    (Part000.send
       (typed (input typing_state)
          (final_state (answers boom_500) (Part000.send typing_state))))
  = [outbound [greeting; user_message (js "aging and memory")]
       (js "aging and memory")].
Proof.
  assert (Hnet : forall req, answers boom_500 req = Responded boom_500)
    by reflexivity.
  split; [exact typing_conversation|]. split; [reflexivity|].
  split; [exact typing_text|]. split; [exact Hnet|]. split; [reflexivity|].
  destruct (@retry_after_failure sample_engine typing_state [greeting]
              (answers boom_500) (answers served_200) boom_500
              typing_conversation eq_refl typing_text Hnet eq_refl)
    as [_ [H1 [H2 _]]].
  split; [exact H1|exact H2].
Defined.

Lemma first_request_witness :
  trim (js " hello ") <> [] /\
  (exists req,
     requests offline (App.send (typed (js " hello ") AppUI.initial) VUndefined)
     = [req] /\
     body req = VObj [(js "messages", VArr [user_message (js "hello")])]) /\
  (exists req,
     requests offline (Part000.send (typed (js " hello ") Part000UI.initial))
     = [req] /\
     body req = VObj [(js "messages", VArr [greeting; user_message (js "hello")])]).
Proof.
  assert (Ht : trim (js " hello ") <> []) by (vm_compute; discriminate).
  split; [exact Ht|].
  destruct (@first_request sample_engine (js " hello ") offline Ht)
    as [[req [Hr Hb]] [req' [g [Hr' [Hg Hb']]]]].
  split.
  - exists req. split; [exact Hr|exact Hb].
  - exists req'. split; [exact Hr'|]. rewrite Hb'.
    injection Hg as <-. reflexivity.
Defined.

Lemma holed_text : App.effective_text holed_state VUndefined <> [].
Proof. vm_compute. discriminate. Qed.

Lemma holed_text' : Part000.effective_text holed_state <> [].
Proof. vm_compute. discriminate. Qed.

Lemma null_entry_blocks_send_witness :
  messages holed_state = VArr [greeting; VNull] /\
  Exists (fun m => nullish m = true) [greeting; VNull] /\
  loading holed_state = false /\
  App.effective_text holed_state VUndefined <> [] /\
  Part000.effective_text holed_state <> [] /\
  requests (answers served_200) (App.send holed_state VUndefined) = [] /\
  requests (answers served_200) (Part000.send holed_state) = [] /\
  messages (final_state (answers served_200) (Part000.send holed_state))
  = VArr [greeting; VNull; user_message (js "diabetes")].
Proof.
  assert (Hex : Exists (fun m : @value sample_engine => nullish m = true)
                  [greeting; VNull])
    by (right; left; reflexivity).
  split; [reflexivity|]. split; [exact Hex|]. split; [reflexivity|].
  split; [exact holed_text|]. split; [exact holed_text'|].
  destruct (@null_entry_blocks_send sample_engine holed_state VUndefined
              [greeting; VNull] (answers served_200)
              eq_refl Hex eq_refl holed_text holed_text')
    as [[H1 _] [H2 H3]].
  split; [exact H1|]. split; [exact H2|]. now rewrite H3.
Defined.

Lemma served_value_breaks_view_witness :
  conversation noted_state [greeting; system_note] /\
  loading noted_state = false /\
  App.effective_text noted_state VUndefined <> [] /\
  Part000.effective_text noted_state <> [] /\
  (forall req, answers holed_200 req = Responded holed_200) /\
  ok holed_200 = true /\
  JSON_parse (E := sample_engine) (body_text holed_200)
  = Normal (VObj [(js "messages", VArr [VNull])]) /\
  (exists e,
     AppUI.rows
       (messages (final_state (answers holed_200) (App.send noted_state VUndefined)))
     = Throw e) /\
  (exists e,
     Part000UI.rows
       (messages (final_state (answers holed_200) (Part000.send noted_state)))
     = Throw e).
Proof.
  assert (Hnet : forall req, answers holed_200 req = Responded holed_200)
    by reflexivity.
  assert (Hp : JSON_parse (E := sample_engine) (body_text holed_200)
               = Normal (VObj [(js "messages", VArr [VNull])]))
    by (vm_compute; reflexivity).
  assert (Hbad :
            isArray (member (VObj [(js "messages", @VArr sample_engine [VNull])])
                       (js "messages")) = false \/
            exists served,
              member (VObj [(js "messages", @VArr sample_engine [VNull])])
                (js "messages") = VArr served /\
              Exists (fun m => nullish m = true) served).
  { right. exists [VNull]. split; [reflexivity|]. left. reflexivity. }
  split; [exact noted_conversation|]. split; [reflexivity|].
  split; [exact noted_text|]. split; [exact noted_text'|].
  split; [exact Hnet|]. split; [reflexivity|]. split; [exact Hp|].
  destruct (@served_value_breaks_view sample_engine noted_state VUndefined
              [greeting; system_note] (answers holed_200) holed_200
              (VObj [(js "messages", VArr [VNull])])
              noted_conversation eq_refl noted_text noted_text' Hnet eq_refl Hp
              eq_refl eq_refl Hbad)
    as [[_ H1] [_ H2]].
  split; [exact H1|exact H2].
Defined.

Lemma error_empty_iff_success_witness :
  conversation noted_state [greeting; system_note] /\
  loading noted_state = false /\
  App.effective_text noted_state VUndefined <> [] /\
  Part000.effective_text noted_state <> [] /\
  (forall req, answers null_200 req = Responded null_200) /\
  error (final_state (answers null_200) (App.send noted_state VUndefined)) <> [] /\
  error (final_state (answers null_200) (Part000.send noted_state)) <> [].
Proof.
  assert (Hnet : forall req, answers null_200 req = Responded null_200)
    by reflexivity.
  assert (Hno : ~ (ok null_200 = true /\
                   exists data, JSON_parse (E := sample_engine) (body_text null_200)
                                = Normal data /\ nullish data = false)).
  { intros [_ [data [Hp Hn]]]. vm_compute in Hp. injection Hp as <-.
    discriminate Hn. }
  split; [exact noted_conversation|]. split; [reflexivity|].
  split; [exact noted_text|]. split; [exact noted_text'|]. split; [exact Hnet|].
  destruct (@error_empty_iff_success sample_engine noted_state VUndefined
              [greeting; system_note] (answers null_200) null_200
              noted_conversation eq_refl noted_text noted_text' Hnet)
    as [[H1 _] [H2 _]].
  split; intros H; apply Hno; [exact (H1 H)|exact (H2 H)].
Defined.

Lemma welcome_screen_witness :
  conversation (E := sample_engine) (typed (js "hello") AppUI.initial) [] /\
  loading (E := sample_engine) (typed (js "hello") AppUI.initial) = false /\
  App.effective_text (E := sample_engine) (typed (js "hello") AppUI.initial)
    VUndefined <> [] /\
  (forall req, match offline req with
               | Rejected _ => True
               | Responded resp => ok resp = false
               end) /\
  showWelcome (final_state offline
                 (App.send (typed (js "hello") AppUI.initial) VUndefined))
  = Normal true /\
  error (final_state offline
           (App.send (typed (js "hello") AppUI.initial) VUndefined))
  = js "Failed to fetch".
Proof.
  assert (Hc : conversation (E := sample_engine)
                 (typed (js "hello") AppUI.initial) [])
    by (split; [reflexivity|constructor]).
  assert (Ht : App.effective_text (E := sample_engine)
                 (typed (js "hello") AppUI.initial) VUndefined <> [])
    by (vm_compute; discriminate).
  assert (Hnet : forall req, match offline req with
                             | Rejected _ => True
                             | Responded resp => ok resp = false
                             end) by (intros req; exact I).
  split; [exact Hc|]. split; [reflexivity|]. split; [exact Ht|].
  split; [exact Hnet|].
  destruct (@welcome_screen sample_engine (typed (js "hello") AppUI.initial)
              VUndefined offline Hc eq_refl Ht Hnet) as [_ [_ [H1 H2]]].
  split; [exact H1|exact H2].
Defined.

(* ================================================================= *)
(** * Checks of the readers on concrete inputs *)

Example JSON_parse_nested :
  JSON_parse (E := sample_engine)
    (js " [1, -2.5e+3, true, null, {" ++ quoted "a" ++ js ": [ ]} ] ")
  = Normal (VArr [VNum (number_of_literal (js "1"));
                  VNum (number_of_literal (js "-2.5e+3"));
                  VBool true; VNull; VObj [(js "a", VArr [])]]).
Proof. vm_compute. reflexivity. Qed.

Example JSON_parse_escapes :
  JSON_parse (E := sample_engine) (quoted "\u0041\n\/")
  = Normal (VStr [65%N; 10%N; 47%N]).
Proof. vm_compute. reflexivity. Qed.

Example JSON_parse_repeated_key :
  JSON_parse (E := sample_engine)
    (js "{" ++ quoted "a" ++ js ":1," ++ quoted "b" ++ js ":2,"
     ++ quoted "a" ++ js ":3}")
  = Normal (VObj [(js "a", VNum (number_of_literal (js "3")));
                  (js "b", VNum (number_of_literal (js "2")))]).
Proof. vm_compute. reflexivity. Qed.

Example JSON_parse_trailing_comma :
  JSON_parse (E := sample_engine) (js "[1,]")
  = Throw (syntax_error (E := sample_engine) (BadJSON (js "[1,]"))).
Proof. vm_compute. reflexivity. Qed.

Example JSON_parse_leading_zero :
  JSON_parse (E := sample_engine) (js "01")
  = Throw (syntax_error (E := sample_engine) (BadJSON (js "01"))).
Proof. vm_compute. reflexivity. Qed.

Example JSON_parse_bare_key :
  JSON_parse (E := sample_engine) (js "{a:1}")
  = Throw (syntax_error (E := sample_engine) (BadJSON (js "{a:1}"))).
Proof. vm_compute. reflexivity. Qed.

Example json_re_is_greedy :
  option_map matched (search json_re (js "see {x} and {y} } here"))
  = Some (js "{x} and {y} }").
Proof. vm_compute. reflexivity. Qed.

Example code_block_re_first_block :
  option_map (fun m => group 1 (groups m))
    (search code_block_re (js "a ```json {x} ``` b ``` {y} ```"))
  = Some (Some (js "{x} ")).
Proof. vm_compute. reflexivity. Qed.

Example code_block_re_needs_closing_fence :
  search code_block_re (js "a ```json {x} ``") = None.
Proof. vm_compute. reflexivity. Qed.
